(** * Property map service: geocoded nearby search and property CRUD

    A shallow embedding of [src/main.py]: the geocode cache-or-fetch step
    ([geocode_location]), the radius query ([get_nearby_properties]), the
    CRUD handlers on the [properties] table and the [nearby] endpoint.

    The collaborators the program talks to (Redis, the geocoding provider,
    the JSON codec, PostGIS' [ST_DistanceSphere], the request-schema
    validators) are fields of one record of externals, so every statement
    below holds for any behaviour of theirs.  A finite double is the rational
    it denotes; every arithmetic operation of the program on doubles is the
    exact operation followed by rounding to the nearest double
    ([round_to_double]).  Python floats that carry coordinates keep their
    non-finite values. *)

From Stdlib Require Import ZArith QArith Qround Qabs Qpower Lqa Ascii String
  Sorted Permutation.
From stdpp Require Import gmap strings list fin_maps.

Set Warnings "-register-all".
Local Open Scope string_scope.
Local Open Scope list_scope.
Local Open Scope Z_scope.

(** ** Python values *)

(** A Python [float]: a rational when finite, else one of the three
    non-finite values. *)
Inductive pyfloat : Type :=
| Fin (q : Q)
| PosInf
| NegInf
| NaN.

Definition is_finite (f : pyfloat) : bool :=
  match f with Fin _ => true | _ => false end.

(** ** Doubles *)

(** The integer nearest to [x], the even one of the two when [x] lies half
    way. *)
Definition round_half_even (x : Q) : Z :=
  let f := Qfloor x in
  match (x - inject_Z f ?= 1 # 2)%Q with
  | Lt => f
  | Gt => f + 1
  | Eq => if Z.even f then f else f + 1
  end.

(** For [x > 0], the [l] with [2 ^ l <= x < 2 ^ (l + 1)]. *)
Definition Qlog2 (x : Q) : Z :=
  let l := Z.log2 (Qnum x) - Z.log2 (Zpos (Qden x)) in
  if Qle_bool (2 ^ l) x then l else l - 1.

(** The exponent of the last bit of the binary64 significand of [x > 0]:
    53 bits, and no exponent below that of the subnormal numbers. *)
Definition double_exponent (x : Q) : Z := Z.max (Qlog2 x - 52) (-1074).

Definition round_magnitude (x : Q) : Q :=
  let e := double_exponent x in
  (inject_Z (round_half_even (x / 2 ^ e)) * 2 ^ e)%Q.

(** The binary64 number nearest to [x], ties to the even significand,
    before the overflow test. *)
Definition round_to_double (x : Q) : Q :=
  match (x ?= 0)%Q with
  | Eq => 0%Q
  | Gt => round_magnitude x
  | Lt => (- round_magnitude (- x))%Q
  end.

(** The double an exact result becomes: an infinity from [2 ^ 1024] on. *)
Definition to_double (x : Q) : pyfloat :=
  let r := round_to_double x in
  if Qle_bool (2 ^ 1024) r then PosInf
  else if Qle_bool r (- 2 ^ 1024) then NegInf
  else Fin r.

(** [x * y] on two finite doubles. *)
Definition float_mul (x y : Q) : pyfloat := to_double (x * y).

(** [x <= y] on [float8] in PostgreSQL, where NaN equals itself and is
    above every other value. *)
Definition float8_le (x y : pyfloat) : bool :=
  match x, y with
  | NaN, NaN => true
  | NaN, _ => false
  | _, NaN => true
  | NegInf, _ => true
  | _, PosInf => true
  | Fin a, Fin b => Qle_bool a b
  | Fin _, NegInf => false
  | PosInf, _ => false
  end.

(** The values [json.loads] / [resp.json()] can produce.  A dict is the
    list of its items, each key occurring once. *)
Inductive value : Type :=
| VNone
| VBool (b : bool)
| VInt (z : Z)
| VFloat (f : pyfloat)
| VStr (s : string)
| VList (l : list value)
| VDict (items : list (string * value)).

(** Truth value of an object, as tested by [if x] / [not x]. *)
Definition truthy (v : value) : bool :=
  match v with
  | VNone => false
  | VBool b => b
  | VInt z => negb (z =? 0)
  | VFloat (Fin q) => negb (Qeq_bool q 0)
  | VFloat _ => true
  | VStr s => negb (String.eqb s "")
  | VList l => match l with [] => false | _ :: _ => true end
  | VDict d => match d with [] => false | _ :: _ => true end
  end.

(** [isinstance(v, list)] *)
Definition is_list (v : value) : bool :=
  match v with VList _ => true | _ => false end.

(** ** Exceptions and the result of a call *)

Inductive exn : Type :=
| HTTPException (status_code : Z) (detail : string)
| KeyError (key : string)
| TypeError
| ValueError
| OverflowError
| JSONDecodeError
| TransportError
| RequestValidationError.

Definition LocationNotFound : exn := HTTPException 400 "Location not found".
Definition NotFound : exn := HTTPException 404 "Property not found".

Inductive result (A : Type) : Type :=
| Ok (a : A)
| Raise (e : exn).
Arguments Ok {A} a.
Arguments Raise {A} e.

(** A computation over a store [S] that may raise. *)
Definition io (S A : Type) : Type := S -> result A * S.

Definition ret {S A} (a : A) : io S A := fun s => (Ok a, s).
Definition raise {S A} (e : exn) : io S A := fun s => (Raise e, s).
Definition bind {S A B} (m : io S A) (k : A -> io S B) : io S B :=
  fun s => match m s with
           | (Ok a, s') => k a s'
           | (Raise e, s') => (Raise e, s')
           end.
Definition lift {S A} (r : result A) : io S A := fun s => (r, s).

Notation "'do' x <- m ; k" := (bind m (fun x => k))
  (at level 10, x pattern, m at level 100, k at level 200).
Notation "'do_' m ; k" := (bind m (fun _ => k))
  (at level 10, m at level 100, k at level 200).

(** ** Geometry expressions handed to the spatial store *)

Inductive geom : Type :=
| WKTElement (data : string) (srid : Z)
| ST_MakePoint (x y : value).

(** Reply of the geocoding provider to one GET: the transport failed or
    timed out, or a response arrived whose body is JSON ([Some]) or not. *)
Inductive http_result : Type :=
| TransportFailure
| Response (body : option value).

(** ** Externals *)

Record externals : Type := {
  (** [str.lower] *)
  str_lower : string -> string;
  (** [json.loads]; [None] is a decode error *)
  json_loads : string -> option value;
  (** [json.dumps] *)
  json_dumps : value -> string;
  (** [float(s)] on a string; [None] is [ValueError] *)
  float_of_str : string -> option pyfloat;
  (** how an f-string prints a float *)
  float_str : pyfloat -> string;
  (** the provider's reply at a given time to a query *)
  http_get : Z -> string -> http_result;
  (** the seconds that request and reply take *)
  http_elapsed : Z -> string -> N;
  (** PostGIS [ST_DistanceSphere], in meters *)
  ST_DistanceSphere : geom -> geom -> Q;
  (** the request schema's validators for a [float] and a [str] field *)
  validate_float : value -> option pyfloat;
  validate_str : value -> option string
}.

(** ** Python built-ins used by the geocoding step *)

(** [d[key]] with a string key. *)
Fixpoint dict_get (key : string) (items : list (string * value)) : option value :=
  match items with
  | [] => None
  | (k, v) :: rest => if String.eqb k key then Some v else dict_get key rest
  end.

Definition subscript (v : value) (key : string) : result value :=
  match v with
  | VDict items =>
      match dict_get key items with
      | Some x => Ok x
      | None => Raise (KeyError key)
      end
  | _ => Raise TypeError
  end.

(** Largest magnitude an [int] may have for [float(int)] not to overflow. *)
Definition float_int_bound : Z := 2 ^ 1024 - 2 ^ 970.

(** [float(v)] *)
Definition to_float (E : externals) (v : value) : result pyfloat :=
  match v with
  | VFloat f => Ok f
  | VInt z => if Z.abs z <? float_int_bound
              then Ok (Fin (round_to_double (inject_Z z)))
              else Raise OverflowError
  | VBool b => Ok (Fin (if b then 1%Q else 0%Q))
  | VStr s => match float_of_str E s with
              | Some f => Ok f
              | None => Raise ValueError
              end
  | VNone | VList _ | VDict _ => Raise TypeError
  end.

(** [a, b = v] *)
Definition unpack2 (v : value) : result (value * value) :=
  match v with
  | VList [a; b] => Ok (a, b)
  | VList _ => Raise ValueError
  | VStr (String a (String b EmptyString)) =>
      Ok (VStr (String a EmptyString), VStr (String b EmptyString))
  | VStr _ => Raise ValueError
  | VDict [(k1, _); (k2, _)] => Ok (VStr k1, VStr k2)
  | VDict _ => Raise ValueError
  | VNone | VBool _ | VInt _ | VFloat _ => Raise TypeError
  end.

(** ** The geocode cache and the provider *)

(** Redis holds, per key, a string and the time at which it expires (if
    it has a time to live); [clock] is the time at which the current
    request arrives and [http_log] the queries sent to the provider so
    far. *)
Record world : Type := {
  redis : gmap string (string * option Z);
  clock : Z;
  http_log : list string
}.

(** A key is served as long as the time is not past its expiry. *)
Definition live (expiry : option Z) (now : Z) : bool :=
  match expiry with
  | None => true
  | Some t => now <=? t
  end.

(** [await redis.get(key)] *)
Definition redis_get (key : string) : io world (option string) :=
  fun w =>
    (Ok (match redis w !! key with
         | Some (v, expiry) => if live expiry (clock w) then Some v else None
         | None => None
         end), w).

(** [await redis.set(key, v, ex=ex)], run [elapsed] seconds after the
    request arrived: the time to live starts then. *)
Definition redis_set (key v : string) (ex : Z) (elapsed : N) : io world unit :=
  fun w =>
    (Ok tt,
     {| redis := <[key := (v, Some (clock w + Z.of_N elapsed + ex))]> (redis w);
        clock := clock w;
        http_log := http_log w |}).

(** [await client.get(url, params={'q': query}, timeout=1.0)] followed by
    [resp.json()] *)
Definition client_get_json (E : externals) (query : string) : io world value :=
  fun w =>
    let w' := {| redis := redis w; clock := clock w;
                 http_log := http_log w ++ [query] |} in
    match http_get E (clock w) query with
    | TransportFailure => (Raise TransportError, w')
    | Response None => (Raise JSONDecodeError, w')
    | Response (Some v) => (Ok v, w')
    end.

Definition cache_key (E : externals) (query : string) : string :=
  ("geocode:" ++ str_lower E query)%string.

(** [float(v[key])] *)
Definition float_field (E : externals) (v : value) (key : string)
  : result pyfloat :=
  match subscript v key with
  | Ok x => to_float E x
  | Raise e => Raise e
  end.

(** The cache-miss path: ask the provider, take the first candidate,
    remember it for 24 hours. *)
Definition geocode_fetch (E : externals) (key query : string)
  : io world (value * value) :=
  do results <- client_get_json E query;
  if negb (truthy results) || negb (is_list results) then
    raise LocationNotFound
  else
    match results with
    | VList (first :: _) =>
        do lat <- lift (float_field E first "lat");
        do lon <- lift (float_field E first "lon");
        do_ (fun w =>
               redis_set key (json_dumps E (VList [VFloat lat; VFloat lon]))
                 86400 (http_elapsed E (clock w) query) w);
        ret (VFloat lat, VFloat lon)
    | _ => raise TypeError
    end.

Definition geocode_location (E : externals) (query : string)
  : io world (value * value) :=
  let key := cache_key E query in
  do cached <- redis_get key;
  match cached with
  | Some s =>
      if negb (String.eqb s "") then
        match json_loads E s with
        | Some v => lift (unpack2 v)
        | None => raise JSONDecodeError
        end
      else geocode_fetch E key query
  | None => geocode_fetch E key query
  end.

(** ** The properties table *)

Record Property : Type := {
  Property_id : Z;
  Property_name : string;
  Property_address : string;
  Property_latitude : pyfloat;
  Property_longitude : pyfloat;
  Property_location : geom
}.

Record PropertyCreate : Type := {
  PropertyCreate_name : string;
  PropertyCreate_address : string;
  PropertyCreate_latitude : pyfloat;
  PropertyCreate_longitude : pyfloat
}.

(** The session sees the rows of the table, in the store's order, and the
    sequence that assigns the next primary key. *)
Record database : Type := {
  table : list Property;
  id_seq : Z
}.

Definition empty_database : database := {| table := []; id_seq := 1 |}.

(** [f'POINT({lon} {lat})'] *)
Definition point_wkt (E : externals) (lon lat : pyfloat) : string :=
  ("POINT(" ++ float_str E lon ++ " " ++ float_str E lat ++ ")")%string.

(** [db.query(Property).filter(Property.id == property_id).first()] *)
Definition query_first (property_id : Z) (db : database) : option Property :=
  List.find (fun p => Property_id p =? property_id) (table db).

(** Replace, respectively remove, the row [first()] returned. *)
Fixpoint update_row (property_id : Z) (f : Property -> Property)
    (rows : list Property) : list Property :=
  match rows with
  | [] => []
  | p :: rest =>
      if Property_id p =? property_id then f p :: rest
      else p :: update_row property_id f rest
  end.

Fixpoint delete_row (property_id : Z) (rows : list Property) : list Property :=
  match rows with
  | [] => []
  | p :: rest =>
      if Property_id p =? property_id then rest
      else p :: delete_row property_id rest
  end.

Definition create_property (E : externals) (prop : PropertyCreate)
  : io database Property :=
  fun db =>
    let point :=
      WKTElement (point_wkt E (PropertyCreate_longitude prop)
                              (PropertyCreate_latitude prop)) 4326 in
    let db_prop :=
      {| Property_id := id_seq db;
         Property_name := PropertyCreate_name prop;
         Property_address := PropertyCreate_address prop;
         Property_latitude := PropertyCreate_latitude prop;
         Property_longitude := PropertyCreate_longitude prop;
         Property_location := point |} in
    (Ok db_prop, {| table := table db ++ [db_prop]; id_seq := id_seq db + 1 |}).

Definition list_properties : io database (list Property) :=
  fun db => (Ok (table db), db).

Definition get_property (property_id : Z) : io database Property :=
  fun db =>
    match query_first property_id db with
    | None => (Raise NotFound, db)
    | Some prop => (Ok prop, db)
    end.

(** The assignments of [update_property] to the row it found. *)
Definition assign_fields (E : externals) (prop_in : PropertyCreate)
    (db_prop : Property) : Property :=
  {| Property_id := Property_id db_prop;
     Property_name := PropertyCreate_name prop_in;
     Property_address := PropertyCreate_address prop_in;
     Property_latitude := PropertyCreate_latitude prop_in;
     Property_longitude := PropertyCreate_longitude prop_in;
     Property_location :=
       WKTElement (point_wkt E (PropertyCreate_longitude prop_in)
                               (PropertyCreate_latitude prop_in)) 4326 |}.

Definition update_property (E : externals) (property_id : Z)
    (prop_in : PropertyCreate) : io database Property :=
  fun db =>
    match query_first property_id db with
    | None => (Raise NotFound, db)
    | Some db_prop =>
        (Ok (assign_fields E prop_in db_prop),
         {| table := update_row property_id (assign_fields E prop_in) (table db);
            id_seq := id_seq db |})
    end.

Definition delete_property (property_id : Z) : io database unit :=
  fun db =>
    match query_first property_id db with
    | None => (Raise NotFound, db)
    | Some _ =>
        (Ok tt, {| table := delete_row property_id (table db);
                   id_seq := id_seq db |})
    end.

(** The request body of [POST /properties] against the schema
    [PropertyCreate]: every field present and accepted by its validator. *)
Definition PropertyCreate_validate (E : externals) (body : value)
  : option PropertyCreate :=
  match body with
  | VDict items =>
      n ← dict_get "name" items ≫= validate_str E;
      a ← dict_get "address" items ≫= validate_str E;
      lat ← dict_get "latitude" items ≫= validate_float E;
      lon ← dict_get "longitude" items ≫= validate_float E;
      Some {| PropertyCreate_name := n; PropertyCreate_address := a;
              PropertyCreate_latitude := lat; PropertyCreate_longitude := lon |}
  | _ => None
  end.

(** [POST /properties]: the framework validates the body, then calls the
    handler. *)
Definition post_properties (E : externals) (body : value)
  : io database Property :=
  match PropertyCreate_validate E body with
  | None => raise RequestValidationError
  | Some prop => create_property E prop
  end.

(** ** The radius query *)

(** [round(x, 2)] on a finite double: the decimal with two digits after
    the point nearest to the exact value of [x], ties to the even digit,
    read back as a double. *)
Definition round2 (x : Q) : Q :=
  round_to_double (inject_Z (round_half_even (x * 100)) / 100).

(** [ORDER BY key]: rows in ascending order of [key]; rows with equal keys
    keep the order in which the store produced them. *)
Section order_by.
Context {A : Type} (key : A -> Q).

Fixpoint insert_row (a : A) (rows : list A) : list A :=
  match rows with
  | [] => [a]
  | b :: rest =>
      if Qle_bool (key a) (key b) then a :: b :: rest
      else b :: insert_row a rest
  end.

Fixpoint order_by (rows : list A) : list A :=
  match rows with
  | [] => []
  | a :: rest => insert_row a (order_by rest)
  end.

(** The order the result is in. *)
Definition key_le (a b : A) : Prop := (key a <= key b)%Q.
End order_by.

(** One entry of the list [get_nearby_properties] returns. *)
Record nearby_item : Type := {
  item_id : Z;
  item_name : string;
  item_address : string;
  item_latitude : pyfloat;
  item_longitude : pyfloat;
  item_distance_km : Q
}.

(** [ST_DistanceSphere(Property.location, ST_MakePoint(lon, lat))] *)
Definition dist_expr (E : externals) (lat lon : value) (p : Property) : Q :=
  ST_DistanceSphere E (Property_location p) (ST_MakePoint lon lat).

(** The rows the query selects, before the column list is applied. *)
Definition nearby_rows (E : externals) (db : database) (lat lon : value)
    (radius_km : Q) : list Property :=
  order_by (dist_expr E lat lon)
    (List.filter
       (fun p => float8_le (Fin (dist_expr E lat lon p))
                   (float_mul radius_km 1000))
       (table db)).

(** [query.all()]: the six selected columns of each row. *)
Definition query_all (E : externals) (db : database) (lat lon : value)
    (radius_km : Q) : list (Z * string * string * pyfloat * pyfloat * Q) :=
  List.map
    (fun p => (Property_id p, Property_name p, Property_address p,
               Property_latitude p, Property_longitude p,
               round_to_double (dist_expr E lat lon p / 1000)))
    (nearby_rows E db lat lon radius_km).

Definition default_radius_km : Q := 50.

(** [radius_km] is [None] when the caller leaves the argument out. *)
Definition get_nearby_properties (E : externals) (db : database)
    (lat lon : value) (radius_km : option Q) : list nearby_item :=
  let radius_km := default default_radius_km radius_km in
  List.map
    (fun '(id, name, address, latitude, longitude, distance) =>
       {| item_id := id; item_name := name; item_address := address;
          item_latitude := latitude; item_longitude := longitude;
          item_distance_km := round2 distance |})
    (query_all E db lat lon radius_km).

Record nearby_response : Type := { properties : list nearby_item }.

(** [GET /properties/get/nearby?location=...] *)
Definition nearby (E : externals) (location : string) (db : database)
  : io world nearby_response :=
  do (lat, lon) <- geocode_location E location;
  let props := get_nearby_properties E db lat lon None in
  ret {| properties := props |}.

(** The entry built from a selected row: its public columns and its
    distance in kilometers, rounded for display. *)
Definition annotate (E : externals) (lat lon : value) (p : Property)
  : nearby_item :=
  {| item_id := Property_id p;
     item_name := Property_name p;
     item_address := Property_address p;
     item_latitude := Property_latitude p;
     item_longitude := Property_longitude p;
     item_distance_km :=
       round2 (round_to_double (dist_expr E lat lon p / 1000)) |}.

(** ** The database URL *)

(** The components of a parsed database URL ([make_url]). *)
Record URL : Type := {
  drivername : string;
  username : option string;
  password : option string;
  host : option string;
  port : option Z;
  database_name : option string;
  query_args : list (string * string)
}.

(** [url.set(drivername=d)] *)
Definition set_drivername (d : string) (url : URL) : URL :=
  {| drivername := d;
     username := username url;
     password := password url;
     host := host url;
     port := port url;
     database_name := database_name url;
     query_args := query_args url |}.

(** The module's normalisation of "postgres://" URLs. *)
Definition normalize_url (url : URL) : URL :=
  if String.eqb (drivername url) "postgres"
  then set_drivername "postgresql+psycopg2" url
  else url.

(** ** Running the service *)

(** The same world at the time of a later request. *)
Definition at_time (t : Z) (w : world) : world :=
  {| redis := redis w; clock := t; http_log := http_log w |}.

(** What [redis.get] finds under the query's key, and whether the test
    [if cached] lets it through. *)
Definition cached (E : externals) (query : string) (w : world) : option string :=
  match redis w !! cache_key E query with
  | Some (v, expiry) => if live expiry (clock w) then Some v else None
  | None => None
  end.

Definition cache_hit (E : externals) (query : string) (w : world) : bool :=
  match cached E query w with
  | Some s => negb (String.eqb s "")
  | None => false
  end.

(** The requests that reach the table, and their effect on it. *)
Inductive request : Type :=
| ReqCreate (prop : PropertyCreate)
| ReqList
| ReqGet (property_id : Z)
| ReqUpdate (property_id : Z) (prop_in : PropertyCreate)
| ReqDelete (property_id : Z)
| ReqNearby (lat lon : value).

Definition handle (E : externals) (db : database) (req : request) : database :=
  match req with
  | ReqCreate prop => snd (create_property E prop db)
  | ReqList => snd (list_properties db)
  | ReqGet property_id => snd (get_property property_id db)
  | ReqUpdate property_id prop_in => snd (update_property E property_id prop_in db)
  | ReqDelete property_id => snd (delete_property property_id db)
  | ReqNearby lat lon => let _ := get_nearby_properties E db lat lon None in db
  end.

Definition serve (E : externals) (db : database) (reqs : list request) : database :=
  fold_left (handle E) reqs db.

(** The derived column is the point whose first coordinate is the
    longitude of the row and whose second is its latitude, in SRID 4326. *)
Definition location_ok (E : externals) (p : Property) : Prop :=
  Property_location p =
  WKTElement ("POINT(" ++ float_str E (Property_longitude p) ++ " "
                       ++ float_str E (Property_latitude p) ++ ")")%string 4326.

(** The ids in the table are pairwise different and below the next value
    of the sequence. *)
Definition keyed (db : database) : Prop :=
  NoDup (List.map Property_id (table db)) /\
  List.Forall (fun p => Property_id p < id_seq db) (table db).

(** ** Stand-ins for the externals, enough to run the examples *)

Module Demo.

Definition lower_char (c : ascii) : ascii :=
  let n := nat_of_ascii c in
  if ((65 <=? n) && (n <=? 90))%nat then ascii_of_nat (n + 32) else c.

Fixpoint lower (s : string) : string :=
  match s with
  | EmptyString => EmptyString
  | String c rest => String (lower_char c) (lower rest)
  end.

(** The few floats the examples print. *)
Definition printed : list (Q * string) :=
  [(0, "0.0"); (25 # 2, "12.5"); (155 # 2, "77.5"); (7751 # 100, "77.51");
   (1251 # 100, "12.51"); (779 # 10, "77.9"); (127 # 10, "12.7");
   (80 # 1, "80.0"); (13 # 1, "13.0")]%Q.

Definition show_float (f : pyfloat) : string :=
  match f with
  | Fin q =>
      match List.find (fun e => Qeq_bool q (fst e)) printed with
      | Some e => snd e
      | None => "1.0"
      end
  | PosInf => "inf"
  | NegInf => "-inf"
  | NaN => "nan"
  end.

Definition read_float (s : string) : option pyfloat :=
  if String.eqb s "12.5" then Some (Fin (25 # 2))
  else if String.eqb s "77.5" then Some (Fin (155 # 2))
  else if String.eqb s "nan" then Some NaN
  else None.

(** A codec that knows the one document the examples cache. *)
Definition coords : value := VList [VFloat (Fin (25 # 2)); VFloat (Fin (155 # 2))].
Definition dumps (v : value) : string := "[12.5, 77.5]".
Definition loads (s : string) : option value :=
  if String.eqb s "[12.5, 77.5]" then Some coords else None.

(** A provider that knows one city, answers a second query with a
    candidate without coordinates, and finds nothing otherwise. *)
Definition provider (t : Z) (q : string) : http_result :=
  if String.eqb q "Hosur" then
    Response (Some (VList [VDict [("lat", VStr "12.5"); ("lon", VStr "77.5")];
                           VDict [("lat", VStr "nan"); ("lon", VStr "nan")]]))
  else if String.eqb q "Atlantis" then
    Response (Some (VList [VDict [("display_name", VStr "Atlantis")]]))
  else Response (Some (VList [])).

(** Distances in meters, read off the stored text of the point. *)
Definition distance (g h : geom) : Q :=
  match g with
  | WKTElement data _ =>
      if String.eqb data "POINT(77.5 12.5)" then 0
      else if String.eqb data "POINT(77.51 12.5)" then 1004
      else if String.eqb data "POINT(77.5 12.51)" then 1001
      else if String.eqb data "POINT(77.9 12.7)" then 50000
      else 200000
  | ST_MakePoint _ _ => 0
  end.

Definition check_float (v : value) : option pyfloat :=
  match v with
  | VFloat f => Some f
  | VInt z => Some (Fin (inject_Z z))
  | VStr s => read_float s
  | _ => None
  end.

Definition check_str (v : value) : option string :=
  match v with VStr s => Some s | _ => None end.

Definition E : externals :=
  {| str_lower := lower;
     json_loads := loads;
     json_dumps := dumps;
     float_of_str := read_float;
     float_str := show_float;
     http_get := provider;
     http_elapsed := fun _ _ => 1%N;
     ST_DistanceSphere := distance;
     validate_float := check_float;
     validate_str := check_str |}.

Definition w0 : world := {| redis := ∅; clock := 0; http_log := [] |}.

(** The point the provider resolves the city to. *)
Definition lat : value := VFloat (Fin (25 # 2)).
Definition lon : value := VFloat (Fin (155 # 2)).

Definition place (n : string) (lat lon : Q) : request :=
  ReqCreate {| PropertyCreate_name := n; PropertyCreate_address := "";
               PropertyCreate_latitude := Fin lat;
               PropertyCreate_longitude := Fin lon |}.

(** A request whose latitude is not a number. *)
Definition nan_prop : PropertyCreate :=
  {| PropertyCreate_name := "nowhere"; PropertyCreate_address := "";
     PropertyCreate_latitude := NaN; PropertyCreate_longitude := Fin 0 |}.

Definition hosur_prop : PropertyCreate :=
  {| PropertyCreate_name := "office"; PropertyCreate_address := "Hosur";
     PropertyCreate_latitude := Fin (25 # 2);
     PropertyCreate_longitude := Fin (155 # 2) |}.

(** Five rows, created in this order, at 200 km, 1.004 km, 50 km,
    1.001 km and 0 km from the point the examples search around. *)
Definition db5 : database :=
  serve E empty_database
    [place "far" (13 # 1) (80 # 1);
     place "east" (25 # 2) (7751 # 100);
     place "edge" (127 # 10) (779 # 10);
     place "north" (1251 # 100) (155 # 2);
     place "here" (25 # 2) (155 # 2)].

(** The third of them, exactly 50 km away. *)
Definition edge : Property :=
  {| Property_id := 3; Property_name := "edge"; Property_address := "";
     Property_latitude := Fin (127 # 10); Property_longitude := Fin (779 # 10);
     Property_location := WKTElement "POINT(77.9 12.7)" 4326 |}.

(** The same externals with the provider out of reach. *)
Definition offline : externals :=
  {| str_lower := lower;
     json_loads := loads;
     json_dumps := dumps;
     float_of_str := read_float;
     float_str := show_float;
     http_get := fun _ _ => TransportFailure;
     http_elapsed := fun _ _ => 1%N;
     ST_DistanceSphere := distance;
     validate_float := check_float;
     validate_str := check_str |}.

(** A world whose cache holds text that is not JSON under the key of the
    known city, and another key next to it. *)
Definition w_corrupt : world :=
  {| redis := {[ "geocode:hosur" := ("<html>", None);
                 "session:42" := ("kept", Some 10) ]};
     clock := 5; http_log := [] |}.

(** A URL as a hosting provider hands it out. *)
Definition aiven_url : URL :=
  {| drivername := "postgres"; username := Some "avnadmin";
     password := Some "secret"; host := Some "pg.example.com";
     port := Some 5432; database_name := Some "defaultdb";
     query_args := [("sslmode", "require")] |}.

End Demo.

Example geocode_miss_then_hit :
  let '(r1, w1) := geocode_location Demo.E "Hosur" Demo.w0 in
  let '(r2, w2) := geocode_location Demo.E "HOSUR" (at_time 3600 w1) in
  r1 = Ok (VFloat (Fin (25 # 2)), VFloat (Fin (155 # 2))) /\ r2 = r1 /\
  http_log w2 = ["Hosur"].
Proof. vm_compute. auto. Qed.

Example nearby_ids_in_order :
  List.map item_id
    (get_nearby_properties Demo.E Demo.db5 Demo.lat Demo.lon None) = [5; 4; 2; 3].
Proof. vm_compute. reflexivity. Qed.

Example nearby_rounded :
  List.map (fun it => Qred (item_distance_km it))
    (get_nearby_properties Demo.E Demo.db5 Demo.lat Demo.lon None)
  = [0; 1; 1; 50]%Q.
Proof. vm_compute. reflexivity. Qed.

(** The double nearest to 0.3, times 1000, is 300.0, although its exact
    value times 1000 is below 300. *)
Example float_product_is_rounded :
  float_mul (round_to_double (3 # 10)) 1000 = to_double 300 /\
  Qle_bool 300 (round_to_double (3 # 10) * 1000) = false.
Proof. vm_compute. auto. Qed.

(** 5 m, 2675 m, 125 m and 375 m are shown as 0.01, 2.67, 0.12 and 0.38
    km: only the last two are ties on the exact value of the double. *)
Example round2_of_doubles :
  List.map
    (fun mc => Qeq_bool (round2 (round_to_double (inject_Z (fst mc) / 1000)))
                        (round_to_double (inject_Z (snd mc) / 100)))
    [(5, 1); (2675, 267); (125, 12); (375, 38)]
  = [true; true; true; true].
Proof. vm_compute. reflexivity. Qed.

(** [float(2 ** 53 + 1)] is [9007199254740992.0]. *)
Example to_float_rounds_ints (E : externals) :
  to_float E (VInt (2 ^ 53 + 1)) = Ok (Fin (round_to_double (inject_Z (2 ^ 53 + 1)))) /\
  Qeq_bool (round_to_double (inject_Z (2 ^ 53 + 1))) (inject_Z (2 ^ 53)) = true.
Proof. split; vm_compute; reflexivity. Qed.

Example nearby_within_one_km :
  List.map item_id
    (get_nearby_properties Demo.E Demo.db5 Demo.lat Demo.lon (Some 1%Q)) = [5].
Proof. vm_compute. reflexivity. Qed.

Example unresolved_location :
  nearby Demo.E "Nowhere" Demo.db5 Demo.w0 =
  (Raise (HTTPException 400 "Location not found"),
   {| redis := ∅; clock := 0; http_log := ["Nowhere"] |}).
Proof. vm_compute. reflexivity. Qed.

Example post_nan_is_stored :
  let body := VDict [("name", VStr "x"); ("address", VStr "y");
                     ("latitude", VStr "nan"); ("longitude", VInt 0)] in
  List.map Property_latitude
    (table (snd (post_properties Demo.E body empty_database))) = [NaN].
Proof. vm_compute. reflexivity. Qed.

Example post_text_is_rejected :
  let body := VDict [("name", VStr "x"); ("address", VStr "y");
                     ("latitude", VStr "north"); ("longitude", VInt 0)] in
  post_properties Demo.E body empty_database
  = (Raise RequestValidationError, empty_database).
Proof. vm_compute. reflexivity. Qed.

(** * Properties *)

(** ** Rounding to a double *)

Lemma two_to_pos e : (0 < 2 ^ e)%Q.
Proof. apply Qpower_0_lt. reflexivity. Qed.

Lemma two_to_plus a b : (2 ^ (a + b) == 2 ^ a * 2 ^ b)%Q.
Proof. apply Qpower_plus. discriminate. Qed.

Lemma two_to_le a b : a <= b -> (2 ^ a <= 2 ^ b)%Q.
Proof. intros. apply Qpower_le_compat_l; [lia | discriminate]. Qed.

Lemma two_to_Z a : 0 <= a -> (inject_Z (2 ^ a) == 2 ^ a)%Q.
Proof. intros. rewrite Zpower_Qpower by lia. reflexivity. Qed.

Lemma Qlog2_spec x : (0 < x)%Q -> (2 ^ Qlog2 x <= x /\ x < 2 ^ (Qlog2 x + 1))%Q.
Proof.
  intros Hx. unfold Qlog2.
  destruct x as [n d]. cbn [Qnum Qden].
  assert (Hn : 0 < n).
  { unfold Qlt in Hx. cbn in Hx. lia. }
  set (a := Z.log2 n). set (b := Z.log2 (Zpos d)).
  destruct (Z.log2_spec n Hn) as [Ha1 Ha2]. fold a in Ha1, Ha2.
  destruct (Z.log2_spec (Zpos d) ltac:(lia)) as [Hb1 Hb2]. fold b in Hb1, Hb2.
  assert (Ha0 : 0 <= a) by apply Z.log2_nonneg.
  assert (Hb0 : 0 <= b) by apply Z.log2_nonneg.
  assert (Hx' : ((n # d) * inject_Z (Zpos d) == inject_Z n)%Q).
  { unfold Qeq, Qmult, inject_Z. cbn. lia. }
  rewrite <- Z.add_1_r in Ha2, Hb2.
  rewrite Zle_Qle in Ha1, Hb1. rewrite Zlt_Qlt in Ha2, Hb2.
  rewrite two_to_Z in Ha1, Ha2, Hb1, Hb2 by lia.
  pose proof (two_to_pos a). pose proof (two_to_pos b).
  pose proof (two_to_pos (a - b)) as Hl. pose proof (two_to_pos (a - b - 1)) as Hl1.
  assert (E1 : (2 ^ a == 2 ^ (a - b) * 2 ^ b)%Q)
    by (rewrite <- two_to_plus; f_equiv; ring).
  assert (E2 : (2 ^ (a + 1) == 2 ^ (a - b + 1) * 2 ^ b)%Q)
    by (rewrite <- two_to_plus; f_equiv; ring).
  assert (E3 : (2 ^ a == 2 ^ (a - b - 1) * 2 ^ (b + 1))%Q)
    by (rewrite <- two_to_plus; f_equiv; ring).
  assert (E4 : (2 ^ (a - b) == 2 ^ (a - b - 1 + 1))%Q) by (f_equiv; ring).
  set (X := (n # d)%Q) in *. set (D := inject_Z (Zpos d)) in *.
  set (N := inject_Z n) in *.
  assert (HD : (0 < D)%Q) by (unfold D; rewrite <- (Zlt_Qlt 0); lia). 
  destruct (Qle_bool (2 ^ (a - b)) X) eqn:Hc.
  - apply Qle_bool_iff in Hc. split; [exact Hc|].
    set (P := (2 ^ (a - b + 1))%Q) in *. set (B := (2 ^ b)%Q) in *.
    set (A1 := (2 ^ (a + 1))%Q) in *.
    nra.
  - assert (Hlt : (X < 2 ^ (a - b))%Q).
    { apply Qnot_le_lt. intros Hle. apply Qle_bool_iff in Hle. congruence. }
    split; [|rewrite <- E4; exact Hlt].
    set (P := (2 ^ (a - b - 1))%Q) in *. set (B1 := (2 ^ (b + 1))%Q) in *.
    set (A := (2 ^ a)%Q) in *.
    nra.
Qed.

Lemma round_half_even_error (x : Q) :
  (Qabs (inject_Z (round_half_even x) - x) <= 1 # 2)%Q.
Proof.
  unfold round_half_even.
  pose proof (Qfloor_le x) as Hlo. pose proof (Qlt_floor x) as Hhi.
  rewrite inject_Z_plus in Hhi. change (inject_Z 1) with 1%Q in Hhi.
  apply Qabs_Qle_condition.
  destruct (x - inject_Z (Qfloor x) ?= 1 # 2)%Q eqn:Hc.
  - apply Qeq_alt in Hc.
    destruct (Z.even (Qfloor x)); rewrite ?inject_Z_plus;
      change (inject_Z 1) with 1%Q; split; lra.
  - apply Qlt_alt in Hc. split; lra.
  - apply Qgt_alt in Hc. rewrite inject_Z_plus.
    change (inject_Z 1) with 1%Q. split; lra.
Qed.

Lemma round_half_even_comp x y : (x == y)%Q -> round_half_even x = round_half_even y.
Proof.
  intros H. unfold round_half_even.
  rewrite (Qfloor_comp x y H).
  assert (Hc : ((x - inject_Z (Qfloor y) ?= 1 # 2) = (y - inject_Z (Qfloor y) ?= 1 # 2))%Q).
  { apply Qcompare_comp; [|reflexivity]. rewrite H. reflexivity. }
  rewrite Hc. reflexivity.
Qed.

Lemma round_half_even_Z n : round_half_even (inject_Z n) = n.
Proof.
  unfold round_half_even. rewrite Qfloor_Z.
  assert (H : (inject_Z n - inject_Z n ?= 1 # 2)%Q = Lt).
  { apply Qlt_alt.
    assert (E : (inject_Z n - inject_Z n == 0)%Q) by ring.
    rewrite E. reflexivity. }
  rewrite H. reflexivity.
Qed.

Lemma round_half_even_mono x y :
  (x <= y)%Q -> round_half_even x <= round_half_even y.
Proof.
  intros Hxy.
  destruct (Qle_lt_or_eq _ _ Hxy) as [Hlt|Heq].
  - pose proof (round_half_even_error x) as Hx.
    pose proof (round_half_even_error y) as Hy.
    apply Qabs_Qle_condition in Hx, Hy.
    assert (H : (inject_Z (round_half_even x) < inject_Z (round_half_even y + 1))%Q).
    { rewrite inject_Z_plus. change (inject_Z 1) with 1%Q. lra. }
    rewrite <- Zlt_Qlt in H. lia.
  - rewrite (round_half_even_comp _ _ Heq). lia.
Qed.

Lemma round_half_even_le_Z x n :
  (x <= inject_Z n)%Q -> round_half_even x <= n.
Proof.
  intros H. apply round_half_even_mono in H.
  rewrite round_half_even_Z in H. lia.
Qed.

Lemma round_half_even_ge_Z x n :
  (inject_Z n <= x)%Q -> n <= round_half_even x.
Proof.
  intros H. apply round_half_even_mono in H.
  rewrite round_half_even_Z in H. lia.
Qed.

Lemma Qlog2_mono x y : (0 < x)%Q -> (x <= y)%Q -> Qlog2 x <= Qlog2 y.
Proof.
  intros Hx Hxy.
  destruct (Qlog2_spec x Hx) as [Hx1 _].
  destruct (Qlog2_spec y ltac:(lra)) as [_ Hy2].
  assert (H : (2 ^ Qlog2 x < 2 ^ (Qlog2 y + 1))%Q) by lra.
  apply Qpower_lt_compat_l_inv in H; [lia | reflexivity].
Qed.

Lemma two_to_div a b : (2 ^ a / 2 ^ b == 2 ^ (a - b))%Q.
Proof.
  pose proof (two_to_pos b).
  assert (E : (2 ^ a == 2 ^ (a - b) * 2 ^ b)%Q)
    by (rewrite <- two_to_plus; f_equiv; ring).
  rewrite E. field. lra.
Qed.

Lemma round_magnitude_nonneg x : (0 < x)%Q -> (0 <= round_magnitude x)%Q.
Proof.
  intros Hx. unfold round_magnitude.
  set (e := double_exponent x). pose proof (two_to_pos e) as He.
  assert (H : 0 <= round_half_even (x / 2 ^ e)).
  { apply round_half_even_ge_Z. change (inject_Z 0) with 0%Q.
    apply Qle_shift_div_l; [exact He | lra]. }
  rewrite Zle_Qle in H. change (inject_Z 0) with 0%Q in H.
  apply Qmult_le_0_compat; lra.
Qed.

Lemma round_magnitude_mono x y :
  (0 < x)%Q -> (x <= y)%Q -> (round_magnitude x <= round_magnitude y)%Q.
Proof.
  intros Hx Hxy. assert (Hy : (0 < y)%Q) by lra.
  pose proof (Qlog2_mono x y Hx Hxy) as HL.
  destruct (Qlog2_spec x Hx) as [Hx1 Hx2].
  destruct (Qlog2_spec y Hy) as [Hy1 Hy2].
  unfold round_magnitude, double_exponent.
  set (Lx := Qlog2 x) in *. set (Ly := Qlog2 y) in *.
  set (ex := Z.max (Lx - 52) (-1074)). set (ey := Z.max (Ly - 52) (-1074)).
  pose proof (two_to_pos ex) as Hex. pose proof (two_to_pos ey) as Hey.
  assert (Hle : ex <= ey) by lia.
  destruct (Z.eq_dec ex ey) as [Heq|Hne].
  - rewrite <- Heq.
    apply Qmult_le_compat_r; [|lra].
    rewrite <- Zle_Qle. apply round_half_even_mono.
    apply Qmult_le_compat_r; [exact Hxy|].
    apply Qlt_le_weak, Qinv_lt_0_compat, Hex.
  - assert (Hlt : ex < ey) by lia.
    assert (Hey' : ey = Ly - 52) by lia.
    assert (HLxy : Lx + 1 <= Ly) by lia.
    pose proof (two_to_le _ _ HLxy) as Hpow.
    apply Qle_trans with (2 ^ Ly)%Q.
    + assert (H : round_half_even (x / 2 ^ ex) <= 2 ^ (Ly - ex)).
      { apply round_half_even_le_Z. rewrite two_to_Z by lia.
        rewrite <- two_to_div.
        apply Qmult_le_compat_r; [lra|].
        apply Qlt_le_weak, Qinv_lt_0_compat, Hex. }
      rewrite Zle_Qle, two_to_Z in H by lia.
      assert (E : (2 ^ Ly == 2 ^ (Ly - ex) * 2 ^ ex)%Q)
        by (rewrite <- two_to_plus; f_equiv; ring).
      rewrite E. apply Qmult_le_compat_r; [exact H | lra].
    + assert (H : 2 ^ 52 <= round_half_even (y / 2 ^ ey)).
      { apply round_half_even_ge_Z. rewrite two_to_Z by lia.
        assert (E : (2 ^ 52 == 2 ^ Ly / 2 ^ ey)%Q)
          by (rewrite two_to_div; f_equiv; lia).
        rewrite E.
        apply Qmult_le_compat_r; [lra|].
        apply Qlt_le_weak, Qinv_lt_0_compat, Hey. }
      rewrite Zle_Qle, two_to_Z in H by lia.
      assert (E : (2 ^ Ly == 2 ^ 52 * 2 ^ ey)%Q)
        by (rewrite <- two_to_plus; f_equiv; lia).
      rewrite E. apply Qmult_le_compat_r; [exact H | lra].
Qed.

Lemma round_to_double_mono x y :
  (x <= y)%Q -> (round_to_double x <= round_to_double y)%Q.
Proof.
  intros Hxy. unfold round_to_double.
  destruct (Qcompare_spec x 0) as [Hx|Hx|Hx];
    destruct (Qcompare_spec y 0) as [Hy|Hy|Hy]; try lra.
  - apply round_magnitude_nonneg. lra.
  - pose proof (round_magnitude_nonneg (- x) ltac:(lra)). lra.
  - pose proof (round_magnitude_mono (- y) (- x) ltac:(lra) ltac:(lra)). lra.
  - pose proof (round_magnitude_nonneg (- x) ltac:(lra)).
    pose proof (round_magnitude_nonneg y ltac:(lra)). lra.
  - apply round_magnitude_mono; lra.
Qed.

Lemma round_half_even_tie x :
  (Qabs (inject_Z (round_half_even x) - x) == 1 # 2)%Q ->
  Z.even (round_half_even x) = true.
Proof.
  unfold round_half_even.
  pose proof (Qfloor_le x) as Hlo. pose proof (Qlt_floor x) as Hhi.
  rewrite inject_Z_plus in Hhi. change (inject_Z 1) with 1%Q in Hhi.
  destruct (Qcompare_spec (x - inject_Z (Qfloor x)) (1 # 2)) as [Hc|Hc|Hc].
  - intros _. destruct (Z.even (Qfloor x)) eqn:He; [exact He|].
    rewrite Z.even_add, He. reflexivity.
  - intros H. exfalso.
    rewrite Qabs_neg in H by lra. lra.
  - intros H. exfalso. rewrite inject_Z_plus in H.
    change (inject_Z 1) with 1%Q in H.
    rewrite Qabs_pos in H by lra. lra.
Qed.

Lemma round_magnitude_error x :
  (0 < x)%Q ->
  (Qabs (round_magnitude x - x) <= x * 2 ^ (-53) + 2 ^ (-1075))%Q.
Proof.
  intros Hx. unfold round_magnitude, double_exponent.
  destruct (Qlog2_spec x Hx) as [HL _].
  set (L := Qlog2 x) in *. set (e := Z.max (L - 52) (-1074)).
  pose proof (two_to_pos e) as He.
  pose proof (round_half_even_error (x / 2 ^ e)) as Hr.
  apply Qabs_Qle_condition in Hr.
  set (h := inject_Z (round_half_even (x / 2 ^ e))) in *.
  assert (Hy : (x / 2 ^ e * 2 ^ e == x)%Q) by (field; lra).
  set (y := (x / 2 ^ e)%Q) in *.
  assert (Hp : (2 ^ e <= x * 2 ^ (-52) + 2 ^ (-1074))%Q).
  { pose proof (two_to_pos (-1074)). pose proof (two_to_pos (-52)).
    pose proof (two_to_pos (L - 52)).
    assert (E : (2 ^ (L - 52) == 2 ^ L * 2 ^ (-52))%Q)
      by (rewrite <- two_to_plus; f_equiv; lia).
    assert (HA : (2 ^ (L - 52) <= x * 2 ^ (-52))%Q).
    { rewrite E. apply Qmult_le_compat_r; lra. }
    destruct (Z.max_spec (L - 52) (-1074)) as [[_ Hm]|[_ Hm]];
      fold e in Hm; rewrite Hm; nra. }
  assert (E52 : (2 ^ (-52) == 2 * 2 ^ (-53))%Q) by reflexivity.
  assert (E74 : (2 ^ (-1074) == 2 * 2 ^ (-1075))%Q) by reflexivity.
  set (P := (2 ^ e)%Q) in *.
  set (c53 := (2 ^ (-53))%Q) in *. set (c75 := (2 ^ (-1075))%Q) in *.
  set (c52 := (2 ^ (-52))%Q) in *. set (c74 := (2 ^ (-1074))%Q) in *.
  apply Qabs_Qle_condition. split; nra.
Qed.

Lemma round_to_double_error x :
  (Qabs (round_to_double x - x) <= Qabs x * 2 ^ (-53) + 2 ^ (-1075))%Q.
Proof.
  unfold round_to_double.
  pose proof (two_to_pos (-1075)).
  destruct (Qcompare_spec x 0) as [Hx|Hx|Hx].
  - pose proof (Qabs_nonneg x) as Ha. pose proof (two_to_pos (-53)).
    set (a := Qabs x) in *. set (c := (2 ^ (-53))%Q) in *.
    apply Qabs_Qle_condition. split; nra.
  - pose proof (round_magnitude_error (- x) ltac:(lra)) as H1.
    rewrite (Qabs_neg x) by lra.
    apply Qabs_Qle_condition in H1. apply Qabs_Qle_condition.
    split; lra.
  - pose proof (round_magnitude_error x Hx) as H1.
    rewrite (Qabs_pos x) by lra. exact H1.
Qed.

(** The bound of the radius query grows with the radius. *)
Lemma to_double_mono x y d :
  (x <= y)%Q ->
  float8_le (Fin d) (to_double x) = true ->
  float8_le (Fin d) (to_double y) = true.
Proof.
  intros Hxy. apply round_to_double_mono in Hxy. unfold to_double.
  pose proof (two_to_pos 1024) as Hp.
  set (rx := round_to_double x) in *. set (ry := round_to_double y) in *.
  set (big := (2 ^ 1024)%Q) in *.
  destruct (Qle_bool big ry) eqn:H1; [done|].
  assert (H1' : (ry < big)%Q).
  { apply Qnot_le_lt. intros H. apply Qle_bool_iff in H. congruence. }
  destruct (Qle_bool big rx) eqn:H2.
  { apply Qle_bool_iff in H2. lra. }
  destruct (Qle_bool rx (- big)) eqn:H3; [done|].
  assert (H3' : (- big < rx)%Q).
  { apply Qnot_le_lt. intros H. apply Qle_bool_iff in H. congruence. }
  destruct (Qle_bool ry (- big)) eqn:H4.
  { apply Qle_bool_iff in H4. lra. }
  cbn. rewrite !Qle_bool_iff. lra.
Qed.


(** 50.0 * 1000 is 50000.0. *)
Lemma default_bound d :
  float8_le (Fin d) (float_mul default_radius_km 1000) = true
  <-> (d <= 50 * 1000)%Q.
Proof.
  assert (H : exists b, float_mul default_radius_km 1000 = Fin b /\
                        (b == 50 * 1000)%Q).
  { eexists. split; vm_compute; reflexivity. }
  destruct H as (b & -> & Hb). cbn. rewrite Qle_bool_iff, Hb. reflexivity.
Qed.

(** ** The geocoding step *)

Ltac unfold_io :=
  unfold bind, ret, raise, lift, redis_get, redis_set, client_get_json in *;
  cbn [fst snd] in *.

Ltac split_match :=
  match goal with
  | H : context [match ?x with _ => _ end] |- _ =>
      let Hx := fresh "Hx" in destruct x eqn:Hx
  | |- context [match ?x with _ => _ end] =>
      let Hx := fresh "Hx" in destruct x eqn:Hx
  end.

Section geocode.
Variable E : externals.

(** [redis.get] reads and nothing else. *)
Lemma redis_get_cached query w :
  redis_get (cache_key E query) w = (Ok (cached E query w), w).
Proof. reflexivity. Qed.

(** The step branches on [cache_hit]. *)
Lemma geocode_location_miss query w :
  cache_hit E query w = false ->
  geocode_location E query w = geocode_fetch E (cache_key E query) query w.
Proof.
  unfold cache_hit, geocode_location, bind. rewrite redis_get_cached.
  destruct (cached E query w) as [s|]; [|reflexivity].
  intros ->. reflexivity.
Qed.

Lemma geocode_location_hit query w s :
  cached E query w = Some s -> s <> "" ->
  geocode_location E query w =
  (match json_loads E s with
   | Some v => unpack2 v
   | None => Raise JSONDecodeError
   end, w).
Proof.
  intros Hc Hs. unfold geocode_location, bind. rewrite redis_get_cached, Hc.
  destruct (String.eqb_spec s ""); [contradiction|]. cbn.
  destruct (json_loads E s); reflexivity.
Qed.

(** The provider is contacted at most once per call, and only on a miss. *)
Lemma geocode_fetch_log key query w r w' :
  geocode_fetch E key query w = (r, w') ->
  http_log w' = http_log w ++ [query] /\ clock w' = clock w.
Proof.
  unfold geocode_fetch. unfold_io. intros H.
  repeat (split_match; try discriminate; simplify_eq/=; auto).
Qed.

Lemma geocode_location_log query w r w' :
  geocode_location E query w = (r, w') ->
  clock w' = clock w /\
  if cache_hit E query w then http_log w' = http_log w
  else http_log w' = http_log w ++ [query].
Proof.
  intros H. destruct (cache_hit E query w) eqn:Hh.
  - unfold cache_hit in Hh. destruct (cached E query w) as [s|] eqn:Hc;
      [|discriminate].
    rewrite (geocode_location_hit _ _ s) in H; auto.
    + by simplify_eq.
    + intros ->. discriminate.
  - rewrite geocode_location_miss in H by done.
    apply geocode_fetch_log in H. tauto.
Qed.

(** A call that raises, whatever it raises, has written nothing. *)
Lemma geocode_fetch_raise_keeps_cache key query w e w' :
  geocode_fetch E key query w = (Raise e, w') -> redis w' = redis w.
Proof.
  unfold geocode_fetch. unfold_io. intros H.
  repeat (split_match; try discriminate; simplify_eq/=; auto).
Qed.

Lemma geocode_location_raise_keeps_cache query w e w' :
  geocode_location E query w = (Raise e, w') -> redis w' = redis w.
Proof.
  intros H. destruct (cache_hit E query w) eqn:Hh.
  - unfold cache_hit in Hh. destruct (cached E query w) as [s|] eqn:Hc;
      [|discriminate].
    rewrite (geocode_location_hit _ _ s) in H; auto.
    + by simplify_eq.
    + intros ->. discriminate.
  - rewrite geocode_location_miss in H by done.
    eauto using geocode_fetch_raise_keeps_cache.
Qed.

(** What the miss path does with each shape of reply. *)
Lemma geocode_fetch_unusable key query w results :
  http_get E (clock w) query = Response (Some results) ->
  truthy results = false \/ is_list results = false ->
  fst (geocode_fetch E key query w) = Raise LocationNotFound.
Proof.
  intros Hget Hbad. unfold geocode_fetch. unfold_io. rewrite Hget.
  destruct Hbad as [-> | ->]; cbn; [reflexivity|].
  rewrite orb_true_r. reflexivity.
Qed.

Lemma geocode_fetch_first key query w first rest :
  http_get E (clock w) query = Response (Some (VList (first :: rest))) ->
  fst (geocode_fetch E key query w) =
  match float_field E first "lat" with
  | Ok lat =>
      match float_field E first "lon" with
      | Ok lon => Ok (VFloat lat, VFloat lon)
      | Raise e => Raise e
      end
  | Raise e => Raise e
  end.
Proof.
  intros Hget. unfold geocode_fetch. unfold_io. rewrite Hget. cbn.
  destruct (float_field E first "lat"); [|reflexivity].
  destruct (float_field E first "lon"); reflexivity.
Qed.

(** A miss that resolves leaves the coordinates under the key for 24
    hours from the moment the provider has answered. *)
Lemma geocode_fetch_ok key query w lat lon w' :
  geocode_fetch E key query w = (Ok (lat, lon), w') ->
  redis w' !! key =
    Some (json_dumps E (VList [lat; lon]),
          Some (clock w + Z.of_N (http_elapsed E (clock w) query) + 86400)).
Proof.
  unfold geocode_fetch. unfold_io. intros H.
  repeat (split_match; try discriminate; simplify_eq/=; auto).
  all: apply lookup_insert_eq.
Qed.

End geocode.

(** [nearby] fails exactly when the geocoding step fails, with its error
    and its world. *)
Lemma nearby_raise (E : externals) location db w e w' :
  nearby E location db w = (Raise e, w') ->
  geocode_location E location w = (Raise e, w').
Proof.
  unfold nearby, bind, ret.
  destruct (geocode_location E location w) as [[[lat lon]|e0] w0]; cbn;
    intros H; by simplify_eq.
Qed.

(** C3: of two successive calls with the same lower-cased query, the
    second at most 24 hours after the first, at most one contacts the
    provider once the first has returned coordinates: when the first call
    was a cache miss, it has stored the coordinates under
    ['geocode:' + lower(q)] with an expiry 86400 seconds after the write,
    that entry is still served at the second call, and the second call
    returns the same coordinates and sends the provider nothing. *)
Theorem geocode_cache_second_call_is_hit
    (E : externals) (q1 q2 : string) (w w1 w2 : world) (t2 : Z)
    (lat lon : value) (r2 : result (value * value)) :
  str_lower E q1 = str_lower E q2 ->
  (forall v, json_dumps E v <> "") ->
  json_loads E (json_dumps E (VList [lat; lon])) = Some (VList [lat; lon]) ->
  clock w <= t2 <= clock w + 86400 ->
  geocode_location E q1 w = (Ok (lat, lon), w1) ->
  geocode_location E q2 (at_time t2 w1) = (r2, w2) ->
  (length (http_log w2) <= length (http_log w) + 1)%nat /\
  (cache_hit E q1 w = false ->
   (exists written,
      clock w <= written /\
      redis w1 !! ("geocode:" ++ str_lower E q1)%string
        = Some (json_dumps E (VList [lat; lon]), Some (written + 86400))) /\
   cached E q2 (at_time t2 w1) = Some (json_dumps E (VList [lat; lon])) /\
   r2 = Ok (lat, lon) /\
   http_log w2 = http_log w1).
Proof.
  intros Hlow Hne Hrt Ht H1 H2.
  assert (Hkey : cache_key E q2 = cache_key E q1)
    by (unfold cache_key; congruence).
  destruct (geocode_location_log E _ _ _ _ H1) as [Hc1 Hl1].
  destruct (geocode_location_log E _ _ _ _ H2) as [Hc2 Hl2].
  destruct (cache_hit E q1 w) eqn:Hh1.
  - split; [|discriminate].
    cbn in Hl2. rewrite <- Hl1.
    destruct (cache_hit E q2 (at_time t2 w1)); rewrite Hl2;
      rewrite ?length_app; cbn; lia.
  - rewrite geocode_location_miss in H1 by done.
    apply geocode_fetch_ok in H1.
    set (elapsed := Z.of_N (http_elapsed E (clock w) q1)) in *.
    assert (Hel : 0 <= elapsed) by apply N2Z.is_nonneg.
    assert (Hc : cached E q2 (at_time t2 w1)
                 = Some (json_dumps E (VList [lat; lon]))).
    { unfold cached. cbn [redis clock at_time]. rewrite Hkey, H1. cbn.
      destruct (Z.leb_spec t2 (clock w + elapsed + 86400)); [done | lia]. }
    rewrite (geocode_location_hit E _ _ _ Hc (Hne _)), Hrt in H2.
    cbn in H2. simplify_eq. cbn [http_log at_time].
    split; [rewrite Hl1, length_app; cbn; lia|].
    intros _. split; [|auto].
    exists (clock w + elapsed). split; [lia | exact H1].
Qed.

(** C5: when [nearby] fails with the 400 "Location not found", the geocode
    cache after the call is the cache before it. *)
Theorem nearby_location_not_found_keeps_cache
    (E : externals) (location : string) (db : database) (w w' : world)
    (detail : string) :
  nearby E location db w = (Raise (HTTPException 400 detail), w') ->
  redis w' = redis w.
Proof.
  intros H. apply nearby_raise in H.
  eauto using geocode_location_raise_keeps_cache.
Qed.

(** C4 (the code at the failing input): the provider answers with one
    candidate that has no ['lat'] entry; the step raises [KeyError], not
    the 400 "Location not found". *)
Theorem geocode_candidate_without_lat_raises_KeyError :
  fst (geocode_location Demo.E "Atlantis" Demo.w0) = Raise (KeyError "lat") /\
  fst (geocode_location Demo.E "Atlantis" Demo.w0) <> Raise LocationNotFound.
Proof. split; [vm_compute; reflexivity | vm_compute; discriminate]. Qed.

(** C9: on a cache miss, when the provider returns a list with several
    candidates, the outcome is computed from the first one alone:
    [(float(first['lat']), float(first['lon']))], or the error of that
    computation, whatever the other candidates are. *)
Theorem geocode_first_match
    (E : externals) (query : string) (w : world) (first : value)
    (rest : list value) :
  cache_hit E query w = false ->
  http_get E (clock w) query = Response (Some (VList (first :: rest))) ->
  fst (geocode_location E query w) =
  match float_field E first "lat" with
  | Ok lat =>
      match float_field E first "lon" with
      | Ok lon => Ok (VFloat lat, VFloat lon)
      | Raise e => Raise e
      end
  | Raise e => Raise e
  end.
Proof.
  intros Hmiss Hget. rewrite geocode_location_miss by done.
  eapply geocode_fetch_first; eauto.
Qed.

(** ** The radius query *)

Section order_by_facts.
Context {A : Type} (key : A -> Q).

Lemma insert_row_Permutation a rows :
  Permutation (insert_row key a rows) (a :: rows).
Proof.
  induction rows as [|b rest IH]; cbn; [reflexivity|].
  destruct (Qle_bool (key a) (key b)); [reflexivity|].
  rewrite IH. apply perm_swap.
Qed.

Lemma order_by_Permutation rows : Permutation (order_by key rows) rows.
Proof.
  induction rows as [|a rest IH]; cbn; [reflexivity|].
  rewrite insert_row_Permutation. by constructor.
Qed.

Lemma order_by_In a rows : In a (order_by key rows) <-> In a rows.
Proof.
  split; apply Permutation_in;
    [|symmetry]; apply order_by_Permutation.
Qed.

Lemma insert_row_sorted a rows :
  StronglySorted (key_le key) rows ->
  StronglySorted (key_le key) (insert_row key a rows).
Proof.
  induction 1 as [|b rest Hs IH Hb]; cbn.
  - repeat constructor.
  - destruct (Qle_bool (key a) (key b)) eqn:Hab.
    + apply Qle_bool_iff in Hab.
      constructor; [by constructor|].
      constructor; [exact Hab|].
      rewrite List.Forall_forall in Hb |- *. intros c Hc.
      specialize (Hb c Hc). unfold key_le in *.
      eapply Qle_trans; eassumption.
    + assert (Hba : (key b <= key a)%Q).
      { apply Qlt_le_weak, Qnot_le_lt. intros Hle.
        apply Qle_bool_iff in Hle. congruence. }
      constructor; [exact IH|].
      rewrite List.Forall_forall. intros c Hc.
      apply (Permutation_in _ (insert_row_Permutation a rest)) in Hc.
      destruct Hc as [<-|Hc]; [exact Hba|].
      rewrite List.Forall_forall in Hb. auto.
Qed.

Lemma order_by_sorted rows : StronglySorted (key_le key) (order_by key rows).
Proof.
  induction rows as [|a rest IH]; cbn; [constructor|].
  by apply insert_row_sorted.
Qed.
End order_by_facts.

Section radius.
Variables (E : externals) (db : database) (lat lon : value).

Lemma nearby_rows_In radius_km p :
  In p (nearby_rows E db lat lon radius_km) <->
  In p (table db) /\
  float8_le (Fin (dist_expr E lat lon p)) (float_mul radius_km 1000) = true.
Proof. unfold nearby_rows. rewrite order_by_In, filter_In. tauto. Qed.

Lemma get_nearby_properties_annotate radius_km :
  get_nearby_properties E db lat lon radius_km =
  List.map (annotate E lat lon)
    (nearby_rows E db lat lon (default default_radius_km radius_km)).
Proof.
  unfold get_nearby_properties, query_all. rewrite List.map_map.
  reflexivity.
Qed.

Lemma get_nearby_properties_In radius_km it :
  In it (get_nearby_properties E db lat lon (Some radius_km)) <->
  exists p, In p (table db) /\
            float8_le (Fin (dist_expr E lat lon p))
              (float_mul radius_km 1000) = true /\
            it = annotate E lat lon p.
Proof.
  rewrite get_nearby_properties_annotate, in_map_iff. cbn.
  split.
  - intros (p & <- & Hp).
    destruct (proj1 (nearby_rows_In _ _) Hp) as [Hin Hd]. eauto.
  - intros (p & Hp & Hd & ->). exists p. split; [done|].
    by apply nearby_rows_In.
Qed.

(** What [round(distance, 2)] makes of the distance column of a row. *)
Lemma round2_spec (km : Q) :
  exists n : Z,
    (Qabs (inject_Z n - km * 100) <= 1 # 2)%Q /\
    ((Qabs (inject_Z n - km * 100) == 1 # 2)%Q -> Z.even n = true) /\
    round2 km = round_to_double (inject_Z n / 100) /\
    (Qabs (round2 km - inject_Z n / 100)
     <= Qabs (inject_Z n / 100) * 2 ^ (-53) + 2 ^ (-1075))%Q.
Proof.
  exists (round_half_even (km * 100)). split; [|split; [|split]].
  - apply round_half_even_error.
  - apply round_half_even_tie.
  - reflexivity.
  - apply round_to_double_error.
Qed.
End radius.

(** Rows of a table with a primary key are told apart by their id. *)
Lemma primary_key_inj (rows : list Property) p q :
  NoDup (List.map Property_id rows) ->
  In p rows -> In q rows -> Property_id p = Property_id q -> p = q.
Proof.
  induction rows as [|r rest IH]; cbn; [done|].
  rewrite NoDup_cons. intros [Hr Hnd] [->|Hp] [->|Hq] Hid; auto.
  - exfalso. apply Hr. rewrite Hid. apply list_elem_of_In, in_map, Hq.
  - exfalso. apply Hr. rewrite <- Hid. apply list_elem_of_In, in_map, Hp.
Qed.


(** C2: the result lists the rows the query selects, row by row in the
    order of the query; that order is ascending in the unrounded sphere
    distance; and the [distance_km] of each entry is made from that
    distance after the ordering: the double [distance / 1000], then the
    multiple of 0.01 nearest to it (ties to the even one), as a double. *)
Theorem nearby_sorted_then_rounded
    (E : externals) (db : database) (lat lon : value) (radius_km : option Q) :
  let distance p :=
    ST_DistanceSphere E (Property_location p) (ST_MakePoint lon lat) in
  let result := get_nearby_properties E db lat lon radius_km in
  exists rows,
    Permutation rows
      (List.filter
         (fun p => float8_le (Fin (distance p))
                     (float_mul (default (50 # 1) radius_km) 1000))
         (table db)) /\
    StronglySorted (fun a b => (distance a <= distance b)%Q) rows /\
    Forall2
      (fun it p =>
         item_id it = Property_id p /\
         let km := round_to_double (distance p / 1000) in
         exists n : Z,
           (Qabs (inject_Z n - km * 100) <= 1 # 2)%Q /\
           ((Qabs (inject_Z n - km * 100) == 1 # 2)%Q -> Z.even n = true) /\
           item_distance_km it = round_to_double (inject_Z n / 100) /\
           (Qabs (item_distance_km it - inject_Z n / 100)
            <= Qabs (inject_Z n / 100) * 2 ^ (-53) + 2 ^ (-1075))%Q)
      result rows.
Proof.
  cbn zeta.
  exists (nearby_rows E db lat lon (default default_radius_km radius_km)).
  split; [apply order_by_Permutation|].
  split; [apply (order_by_sorted (dist_expr E lat lon))|].
  rewrite get_nearby_properties_annotate.
  induction (nearby_rows E db lat lon (default default_radius_km radius_km))
    as [|p rows IH]; cbn [List.map]; constructor; [|exact IH].
  split; [reflexivity|]. apply round2_spec.
Qed.

(** The default radius in terms of the exact bound. *)
Lemma get_nearby_properties_default_In
    (E : externals) (db : database) (lat lon : value) (it : nearby_item) :
  In it (get_nearby_properties E db lat lon None) <->
  exists p, In p (table db) /\
            (dist_expr E lat lon p <= 50 * 1000)%Q /\
            it = annotate E lat lon p.
Proof.
  change (get_nearby_properties E db lat lon None)
    with (get_nearby_properties E db lat lon (Some default_radius_km)).
  rewrite get_nearby_properties_In.
  split; intros (p & Hp & Hd & ->); exists p; repeat split; auto;
    by apply default_bound.
Qed.

(** C10: the handler of the nearby endpoint takes the location text and
    nothing else, and searches with the default radius of 50 km: its answer
    is the radius query at 50 km around the geocoded point, so it lists
    exactly the stored properties within 50 * 1000 meters of that point. *)
Theorem nearby_uses_default_radius
    (E : externals) (location : string) (db : database) (w : world) :
  match geocode_location E location w with
  | (Ok (lat, lon), w') =>
      nearby E location db w =
        (Ok {| properties :=
                 get_nearby_properties E db lat lon (Some (50 # 1)) |}, w') /\
      forall it,
        In it (get_nearby_properties E db lat lon None) <->
        exists p, In p (table db) /\
                  (dist_expr E lat lon p <= 50 * 1000)%Q /\
                  it = annotate E lat lon p
  | (Raise e, w') => nearby E location db w = (Raise e, w')
  end.
Proof.
  unfold nearby, bind, ret.
  destruct (geocode_location E location w) as [[[lat lon]|e] w'];
    [|reflexivity].
  split; [reflexivity|].
  intros it. apply get_nearby_properties_default_In.
Qed.

(** ** The table *)

Section table_facts.
Variable E : externals.

Lemma query_first_absent property_id db :
  (forall p, In p (table db) -> Property_id p <> property_id) ->
  query_first property_id db = None.
Proof.
  unfold query_first. induction (table db) as [|p rest IH]; cbn; [done|].
  intros Habs. destruct (Z.eqb_spec (Property_id p) property_id) as [Heq|_].
  - exfalso. eapply Habs; eauto.
  - apply IH. intros q Hq. apply Habs. by right.
Qed.

Lemma update_row_Forall (P : Property -> Prop) property_id f rows :
  (forall p, P (f p)) ->
  List.Forall P rows -> List.Forall P (update_row property_id f rows).
Proof.
  intros Hf. induction 1 as [|p rest Hp Hrest IH]; cbn; [constructor|].
  destruct (Property_id p =? property_id); constructor; auto.
Qed.

Lemma delete_row_Forall (P : Property -> Prop) property_id rows :
  List.Forall P rows -> List.Forall P (delete_row property_id rows).
Proof.
  induction 1 as [|p rest Hp Hrest IH]; cbn; [constructor|].
  destruct (Property_id p =? property_id); [done|]. by constructor.
Qed.

Lemma update_row_found property_id f rows old :
  List.find (fun p => Property_id p =? property_id) rows = Some old ->
  In (f old) (update_row property_id f rows).
Proof.
  induction rows as [|p rest IH]; cbn; [done|].
  destruct (Property_id p =? property_id).
  - intros [= ->]. by left.
  - intros H. right. auto.
Qed.

Lemma assign_fields_location_ok prop_in db_prop :
  location_ok E (assign_fields E prop_in db_prop).
Proof. reflexivity. Qed.

(** Every handler keeps the derived column in step with the
    coordinates. *)
Lemma handle_location_ok db req :
  List.Forall (location_ok E) (table db) ->
  List.Forall (location_ok E) (table (handle E db req)).
Proof.
  intros Hdb. destruct req as [prop| |pid|pid prop_in|pid|lat lon]; cbn.
  - apply Forall_app. split; [done|]. by repeat constructor.
  - done.
  - unfold get_property. by destruct (query_first pid db).
  - unfold update_property. destruct (query_first pid db); cbn; [|done].
    apply update_row_Forall; [apply assign_fields_location_ok | done].
  - unfold delete_property. destruct (query_first pid db); cbn; [|done].
    by apply delete_row_Forall.
  - done.
Qed.

Lemma serve_location_ok reqs : forall db,
  List.Forall (location_ok E) (table db) ->
  List.Forall (location_ok E) (table (serve E db reqs)).
Proof.
  induction reqs as [|req reqs IH]; intros db Hdb; cbn; [done|].
  apply IH. by apply handle_location_ok.
Qed.
End table_facts.

(** The sequence hands out fresh ids, so the ids in the table stay
    pairwise different: the hypothesis of [radius_filter] holds in every
    table the handlers can build. *)
Section primary_key.
Variable E : externals.

Lemma update_row_ids property_id prop_in rows :
  List.map Property_id (update_row property_id (assign_fields E prop_in) rows)
  = List.map Property_id rows.
Proof.
  induction rows as [|p rest IH]; cbn; [done|].
  destruct (Property_id p =? property_id); cbn; congruence.
Qed.

Lemma delete_row_In property_id rows q :
  In q (delete_row property_id rows) -> In q rows.
Proof.
  induction rows as [|p rest IH]; cbn; [done|].
  destruct (Property_id p =? property_id); cbn; intuition.
Qed.

Lemma delete_row_NoDup property_id rows :
  NoDup (List.map Property_id rows) ->
  NoDup (List.map Property_id (delete_row property_id rows)).
Proof.
  induction rows as [|p rest IH]; cbn; [done|].
  rewrite NoDup_cons. intros [Hp Hrest].
  destruct (Property_id p =? property_id); cbn; [done|].
  apply NoDup_cons. split; [|auto].
  intros Hin. apply Hp.
  apply list_elem_of_In, in_map_iff in Hin as (q & Hq & Hin).
  apply list_elem_of_In, in_map_iff. eauto using delete_row_In.
Qed.

Lemma handle_keyed db req : keyed db -> keyed (handle E db req).
Proof.
  intros [Hnd Hlt].
  destruct req as [prop| |pid|pid prop_in|pid|lat lon]; cbn; try done.
  - split; cbn.
    + rewrite List.map_app. cbn. apply NoDup_app. split; [done|].
      split; [|apply NoDup_singleton].
      intros i Hi [Heq|[]]%list_elem_of_In. subst i.
      apply list_elem_of_In, in_map_iff in Hi as (p & Hp & Hin).
      rewrite List.Forall_forall in Hlt. specialize (Hlt p Hin). lia.
    + apply Forall_app. split.
      * eapply List.Forall_impl; [|exact Hlt]. cbn. intros; lia.
      * repeat constructor. cbn. lia.
  - unfold get_property. by destruct (query_first pid db).
  - unfold update_property. destruct (query_first pid db); [|done].
    split; cbn.
    + by rewrite update_row_ids.
    + clear Hnd. induction Hlt as [|q rest Hq Hrest IH]; cbn; [constructor|].
      destruct (Property_id q =? pid); constructor; auto.
  - unfold delete_property. destruct (query_first pid db); [|done].
    split; cbn.
    + by apply delete_row_NoDup.
    + rewrite List.Forall_forall in Hlt |- *. intros q Hq.
      eauto using delete_row_In.
Qed.

Lemma serve_keyed reqs :
  NoDup (List.map Property_id (table (serve E empty_database reqs))).
Proof.
  assert (H : forall db, keyed db -> keyed (serve E db reqs)).
  { induction reqs as [|req reqs IH]; intros db Hdb; cbn; [done|].
    apply IH. by apply handle_keyed. }
  apply H. split; constructor.
Qed.
End primary_key.

(** C7: for an id no stored row has, [get_property], [update_property] and
    [delete_property] each raise the 404 "Property not found" and leave the
    table as it was. *)
Theorem missing_id_is_not_found
    (E : externals) (db : database) (property_id : Z)
    (prop_in : PropertyCreate) :
  (forall p, In p (table db) -> Property_id p <> property_id) ->
  get_property property_id db
    = (Raise (HTTPException 404 "Property not found"), db) /\
  update_property E property_id prop_in db
    = (Raise (HTTPException 404 "Property not found"), db) /\
  delete_property property_id db
    = (Raise (HTTPException 404 "Property not found"), db).
Proof.
  intros Habs. apply query_first_absent in Habs.
  unfold get_property, update_property, delete_property.
  rewrite Habs. auto.
Qed.

(** C8: the text of the point whose first coordinate is the longitude of
    a row and whose second is its latitude, in SRID 4326, is what the
    [location] of the row holds: starting from a table in which this is so
    for every row, any sequence of requests leaves such a table; the row
    [create_property] stores and the row [update_property] rewrites carry
    the coordinates of the request and the point built from those same
    coordinates in the same step. *)
Theorem location_follows_coordinates
    (E : externals) (db : database) (reqs : list request) :
  let consistent p :=
    Property_location p =
    WKTElement ("POINT(" ++ float_str E (Property_longitude p) ++ " "
                ++ float_str E (Property_latitude p) ++ ")")%string 4326 in
  List.Forall consistent (table db) ->
  List.Forall consistent (table (serve E db reqs)) /\
  (forall prop,
     exists p, create_property E prop db
               = (Ok p, {| table := table db ++ [p]; id_seq := id_seq db + 1 |}) /\
               Property_latitude p = PropertyCreate_latitude prop /\
               Property_longitude p = PropertyCreate_longitude prop /\
               consistent p) /\
  (forall property_id prop_in old,
     query_first property_id db = Some old ->
     exists p db', update_property E property_id prop_in db = (Ok p, db') /\
                   In p (table db') /\
                   Property_latitude p = PropertyCreate_latitude prop_in /\
                   Property_longitude p = PropertyCreate_longitude prop_in /\
                   consistent p).
Proof.
  intros consistent Hdb. split; [by apply (serve_location_ok E)|]. split.
  - intros prop. eexists. repeat split.
  - intros pid prop_in old Hold. unfold update_property. rewrite Hold.
    do 2 eexists. split; [reflexivity|]. cbn.
    split; [|by repeat split].
    by apply update_row_found.
Qed.

(** C6 (as amended): a request to create a property is rejected, with
    nothing persisted, exactly when its body fails the schema
    [PropertyCreate]; [create_property] itself checks nothing, so every
    validated request, whatever floats its latitude and longitude are
    (NaN and the infinities included), is persisted with those
    coordinates. *)
Theorem create_checks_schema_only
    (E : externals) (body : value) (db : database) :
  match PropertyCreate_validate E body with
  | None => post_properties E body db = (Raise RequestValidationError, db)
  | Some prop => post_properties E body db = create_property E prop db
  end /\
  forall prop : PropertyCreate,
    exists p, create_property E prop db
              = (Ok p, {| table := table db ++ [p]; id_seq := id_seq db + 1 |}) /\
              Property_latitude p = PropertyCreate_latitude prop /\
              Property_longitude p = PropertyCreate_longitude prop.
Proof.
  split.
  - unfold post_properties. by destruct (PropertyCreate_validate E body).
  - intros prop. eexists. repeat split.
Qed.

(** ** The statements at concrete inputs *)


Lemma geocode_cache_second_call_is_hit_witness :
  let w1 := snd (geocode_location Demo.E "Hosur" Demo.w0) in
  let '(r2, w2) := geocode_location Demo.E "HOSUR" (at_time 86400 w1) in
  (length (http_log w2) <= length (http_log Demo.w0) + 1)%nat /\
  (cache_hit Demo.E "Hosur" Demo.w0 = false ->
   (exists written,
      clock Demo.w0 <= written /\
      redis w1 !! ("geocode:" ++ str_lower Demo.E "Hosur")%string
        = Some (json_dumps Demo.E Demo.coords, Some (written + 86400))) /\
   cached Demo.E "HOSUR" (at_time 86400 w1)
     = Some (json_dumps Demo.E Demo.coords) /\
   r2 = Ok (VFloat (Fin (25 # 2)), VFloat (Fin (155 # 2))) /\
   http_log w2 = http_log w1).
Proof.
  apply (geocode_cache_second_call_is_hit Demo.E "Hosur" "HOSUR" Demo.w0
           (snd (geocode_location Demo.E "Hosur" Demo.w0))
           (snd (geocode_location Demo.E "HOSUR"
                   (at_time 86400 (snd (geocode_location Demo.E "Hosur" Demo.w0)))))
           86400 (VFloat (Fin (25 # 2))) (VFloat (Fin (155 # 2)))
           (fst (geocode_location Demo.E "HOSUR"
                   (at_time 86400 (snd (geocode_location Demo.E "Hosur" Demo.w0)))))).
  - vm_compute. reflexivity.
  - intros v. discriminate.
  - reflexivity.
  - cbn. lia.
  - vm_compute. reflexivity.
  - vm_compute. reflexivity.
Defined.

Lemma nearby_location_not_found_keeps_cache_witness :
  redis (snd (nearby Demo.E "Nowhere" Demo.db5 Demo.w0)) = redis Demo.w0.
Proof.
  apply (nearby_location_not_found_keeps_cache Demo.E "Nowhere" Demo.db5
           Demo.w0 _ "Location not found").
  vm_compute. reflexivity.
Defined.

Lemma missing_id_is_not_found_witness :
  get_property 9 Demo.db5
    = (Raise (HTTPException 404 "Property not found"), Demo.db5) /\
  update_property Demo.E 9 Demo.hosur_prop Demo.db5
    = (Raise (HTTPException 404 "Property not found"), Demo.db5) /\
  delete_property 9 Demo.db5
    = (Raise (HTTPException 404 "Property not found"), Demo.db5).
Proof.
  apply (missing_id_is_not_found Demo.E Demo.db5 9 Demo.hosur_prop).
  intros p Hp. cbn in Hp.
  repeat (destruct Hp as [<-|Hp]; [cbn; lia|]). contradiction.
Defined.

Lemma location_follows_coordinates_witness :
  List.Forall
    (fun p =>
       Property_location p =
       WKTElement ("POINT(" ++ float_str Demo.E (Property_longitude p) ++ " "
                   ++ float_str Demo.E (Property_latitude p) ++ ")")%string
                  4326)
    (table (serve Demo.E Demo.db5
              [ReqUpdate 2 Demo.nan_prop; ReqDelete 1;
               ReqCreate Demo.hosur_prop; ReqUpdate 7 Demo.hosur_prop])).
Proof.
  apply (location_follows_coordinates Demo.E Demo.db5
           [ReqUpdate 2 Demo.nan_prop; ReqDelete 1;
            ReqCreate Demo.hosur_prop; ReqUpdate 7 Demo.hosur_prop]).
  vm_compute. repeat constructor.
Defined.

Lemma geocode_first_match_witness :
  fst (geocode_location Demo.E "Hosur" Demo.w0) =
  Ok (VFloat (Fin (25 # 2)), VFloat (Fin (155 # 2))).
Proof.
  apply (geocode_first_match Demo.E "Hosur" Demo.w0
           (VDict [("lat", VStr "12.5"); ("lon", VStr "77.5")])
           [VDict [("lat", VStr "nan"); ("lon", VStr "nan")]]).
  - vm_compute. reflexivity.
  - reflexivity.
Defined.

(** C6 (counterexample): [create_property] persists a request whose
    latitude is NaN. *)
Lemma create_property_persists_nan :
  ~ (forall (E : externals) (prop : PropertyCreate) (db : database),
       is_finite (PropertyCreate_latitude prop)
         && is_finite (PropertyCreate_longitude prop) = false ->
       exists e, create_property E prop db = (Raise e, db)).
Proof.
  intros H.
  destruct (H Demo.E Demo.nan_prop empty_database eq_refl) as [e He].
  discriminate He.
Qed.


(** * Further properties of the handlers *)

(** ** Rows found by id *)

Section rows_by_id.
Variable E : externals.

Lemma query_first_id property_id db p :
  query_first property_id db = Some p -> Property_id p = property_id.
Proof.
  unfold query_first. intros H. apply find_some in H as [_ H]. lia.
Qed.

Lemma query_first_In property_id db p :
  query_first property_id db = Some p -> In p (table db).
Proof. unfold query_first. intros H. by apply find_some in H as [H _]. Qed.

Lemma find_id_app property_id (rows more : list Property) :
  List.find (fun p => Property_id p =? property_id) (rows ++ more) =
  match List.find (fun p => Property_id p =? property_id) rows with
  | Some p => Some p
  | None => List.find (fun p => Property_id p =? property_id) more
  end.
Proof.
  induction rows as [|p rest IH]; cbn; [done|].
  by destruct (Property_id p =? property_id).
Qed.

Lemma find_id_fresh property_id (rows : list Property) :
  List.Forall (fun p => Property_id p < property_id) rows ->
  List.find (fun p => Property_id p =? property_id) rows = None.
Proof.
  induction 1 as [|p rest Hp Hrest IH]; cbn; [done|].
  destruct (Z.eqb_spec (Property_id p) property_id); [lia | done].
Qed.

Lemma find_id_update_row_same property_id prop_in rows :
  List.find (fun p => Property_id p =? property_id)
    (update_row property_id (assign_fields E prop_in) rows) =
  assign_fields E prop_in <$>
    List.find (fun p => Property_id p =? property_id) rows.
Proof.
  induction rows as [|p rest IH]; cbn; [done|].
  destruct (Property_id p =? property_id) eqn:Hp; cbn; rewrite Hp; done.
Qed.

Lemma find_id_update_row_other property_id other prop_in rows :
  other <> property_id ->
  List.find (fun p => Property_id p =? other)
    (update_row property_id (assign_fields E prop_in) rows) =
  List.find (fun p => Property_id p =? other) rows.
Proof.
  intros Hne. induction rows as [|p rest IH]; cbn; [done|].
  destruct (Z.eqb_spec (Property_id p) property_id) as [Hp|Hp]; cbn.
  - destruct (Z.eqb_spec (Property_id p) other); [lia | done].
  - by rewrite IH.
Qed.

Lemma find_id_delete_row_other property_id other rows :
  other <> property_id ->
  List.find (fun p => Property_id p =? other) (delete_row property_id rows) =
  List.find (fun p => Property_id p =? other) rows.
Proof.
  intros Hne. induction rows as [|p rest IH]; cbn; [done|].
  destruct (Z.eqb_spec (Property_id p) property_id) as [Hp|Hp]; cbn.
  - destruct (Z.eqb_spec (Property_id p) other); [lia | done].
  - by rewrite IH.
Qed.

Lemma find_id_delete_row_same property_id rows :
  NoDup (List.map Property_id rows) ->
  List.find (fun p => Property_id p =? property_id)
    (delete_row property_id rows) = None.
Proof.
  induction rows as [|p rest IH]; cbn; [done|].
  rewrite NoDup_cons. intros [Hp Hrest].
  destruct (Z.eqb_spec (Property_id p) property_id) as [Heq|Hne]; cbn.
  - destruct (List.find _ rest) as [q|] eqn:Hq; [|done].
    apply find_some in Hq as [Hin Hid]. exfalso. apply Hp.
    apply list_elem_of_In, in_map_iff. exists q. split; [lia | done].
  - destruct (Z.eqb_spec (Property_id p) property_id); [done | auto].
Qed.

Lemma delete_row_length property_id rows p :
  List.find (fun p => Property_id p =? property_id) rows = Some p ->
  S (length (delete_row property_id rows)) = length rows.
Proof.
  induction rows as [|q rest IH]; cbn; [done|].
  destruct (Property_id q =? property_id); cbn; [done|].
  intros H. by rewrite IH.
Qed.

Lemma update_row_twice property_id p1 p2 rows :
  update_row property_id (assign_fields E p2)
    (update_row property_id (assign_fields E p1) rows) =
  update_row property_id (assign_fields E p2) rows.
Proof.
  induction rows as [|p rest IH]; cbn; [done|].
  destruct (Property_id p =? property_id) eqn:Hp; cbn; rewrite Hp;
    [done | by rewrite IH].
Qed.
End rows_by_id.

(** ** The handlers on the table, composed *)

(** X1: in a table whose ids lie below the sequence, the row
    [create_property] returns is the row [get_property] finds under the id
    it was given. *)
Theorem create_then_get
    (E : externals) (prop : PropertyCreate) (db : database) :
  keyed db ->
  exists p db',
    create_property E prop db = (Ok p, db') /\
    Property_id p = id_seq db /\
    get_property (Property_id p) db' = (Ok p, db').
Proof.
  intros [_ Hlt]. do 2 eexists. split; [reflexivity|]. split; [reflexivity|].
  unfold get_property, query_first. cbn.
  rewrite find_id_app, (find_id_fresh _ _ Hlt). cbn.
  by rewrite Z.eqb_refl.
Qed.

(** X2: creating a property changes the answer of [get_property] for no
    id other than the one the sequence hands out. *)
Theorem create_keeps_other_rows
    (E : externals) (prop : PropertyCreate) (db : database)
    (property_id : Z) :
  property_id <> id_seq db ->
  fst (get_property property_id (snd (create_property E prop db)))
  = fst (get_property property_id db).
Proof.
  intros Hne. unfold get_property, query_first. cbn.
  rewrite find_id_app.
  destruct (List.find _ (table db)); [done|]. cbn.
  destruct (Z.eqb_spec (id_seq db) property_id); [congruence | done].
Qed.

(** X3: an update of a stored id succeeds, keeps the id, replaces name,
    address and coordinates by those of the request, and [get_property]
    then returns exactly the row the update returned. *)
Theorem update_then_get
    (E : externals) (property_id : Z) (prop_in : PropertyCreate)
    (db : database) (old : Property) :
  query_first property_id db = Some old ->
  exists p db',
    update_property E property_id prop_in db = (Ok p, db') /\
    get_property property_id db' = (Ok p, db') /\
    Property_id p = property_id /\
    Property_name p = PropertyCreate_name prop_in /\
    Property_address p = PropertyCreate_address prop_in /\
    Property_latitude p = PropertyCreate_latitude prop_in /\
    Property_longitude p = PropertyCreate_longitude prop_in.
Proof.
  intros Hold. unfold update_property. rewrite Hold.
  do 2 eexists. split; [reflexivity|]. split.
  - unfold get_property, query_first in *. cbn.
    by rewrite find_id_update_row_same, Hold.
  - cbn. repeat split. by eapply query_first_id.
Qed.

(** X4: an update, whether it succeeds or not, leaves the ids present in
    the table as they were (the same ids, each as often as before), does
    not advance the sequence, and changes the answer of [get_property] for
    no other id. *)
Theorem update_keeps_other_rows
    (E : externals) (property_id other : Z) (prop_in : PropertyCreate)
    (db : database) :
  other <> property_id ->
  let db' := snd (update_property E property_id prop_in db) in
  fst (get_property other db') = fst (get_property other db) /\
  Permutation (List.map Property_id (table db'))
              (List.map Property_id (table db)) /\
  id_seq db' = id_seq db.
Proof.
  intros Hne db'. subst db'. unfold update_property.
  destruct (query_first property_id db); cbn; [|done].
  split; [|split; [by rewrite update_row_ids | done]].
  unfold get_property, query_first. cbn.
  rewrite find_id_update_row_other by done.
  by destruct (List.find _ (table db)).
Qed.

(** X5: in a table with pairwise different ids, deleting a stored id
    succeeds, removes exactly one row, and [get_property] on that id then
    raises the 404. *)
Theorem delete_then_get
    (property_id : Z) (db : database) (old : Property) :
  NoDup (List.map Property_id (table db)) ->
  query_first property_id db = Some old ->
  exists db',
    delete_property property_id db = (Ok tt, db') /\
    S (length (table db')) = length (table db) /\
    get_property property_id db'
      = (Raise (HTTPException 404 "Property not found"), db').
Proof.
  intros Hnd Hold. unfold delete_property. rewrite Hold.
  eexists. split; [reflexivity|]. cbn. split.
  - eapply delete_row_length. exact Hold.
  - unfold get_property, query_first. cbn.
    by rewrite find_id_delete_row_same.
Qed.

(** X6: a delete changes the answer of [get_property] for no other id, and
    never adds a row. *)
Theorem delete_keeps_other_rows
    (property_id other : Z) (db : database) :
  other <> property_id ->
  let db' := snd (delete_property property_id db) in
  fst (get_property other db') = fst (get_property other db) /\
  (forall p, In p (table db') -> In p (table db)).
Proof.
  intros Hne db'. subst db'. unfold delete_property.
  destruct (query_first property_id db); cbn; [|done].
  split; [|intros q; apply delete_row_In].
  unfold get_property, query_first. cbn.
  rewrite find_id_delete_row_other by done.
  by destruct (List.find _ (table db)).
Qed.

(** X7: of two updates of the same id the second one wins: the table and
    the returned row are those of the second update alone. *)
Theorem update_last_write_wins
    (E : externals) (property_id : Z) (p1 p2 : PropertyCreate)
    (db : database) :
  update_property E property_id p2
    (snd (update_property E property_id p1 db))
  = update_property E property_id p2 db.
Proof.
  unfold update_property.
  destruct (query_first property_id db) as [old|] eqn:Hold; cbn.
  - unfold query_first in *. cbn.
    rewrite find_id_update_row_same, Hold. cbn.
    by rewrite update_row_twice.
  - by rewrite Hold.
Qed.

(** X8: the primary key is an invariant of the handlers: from a table whose
    ids are pairwise different and below the sequence, every sequence of
    requests leads to such a table. *)
Theorem primary_key_invariant
    (E : externals) (reqs : list request) (db : database) :
  keyed db -> keyed (serve E db reqs).
Proof.
  revert db. induction reqs as [|req reqs IH]; intros db Hdb; cbn; [done|].
  apply IH. by apply handle_keyed.
Qed.

(** Consecutive creates, as one step on the table. *)
Lemma serve_creates (E : externals) (props : list PropertyCreate) :
  forall db,
    exists new_rows,
      table (serve E db (List.map ReqCreate props)) = table db ++ new_rows /\
      id_seq (serve E db (List.map ReqCreate props))
        = id_seq db + Z.of_nat (length props) /\
      List.map Property_id new_rows
        = List.map (fun i => id_seq db + Z.of_nat i) (seq 0 (length props)) /\
      List.map (fun p => (Property_name p, Property_address p,
                          Property_latitude p, Property_longitude p)) new_rows
        = List.map (fun c => (PropertyCreate_name c, PropertyCreate_address c,
                              PropertyCreate_latitude c,
                              PropertyCreate_longitude c)) props.
Proof.
  induction props as [|c props IH]; intros db.
  - exists []. cbn. rewrite app_nil_r. repeat split; lia.
  - cbn [List.map serve fold_left handle length].
    destruct (IH (snd (create_property E c db))) as (rest & Ht & Hs & Hid & Hf).
    fold (serve E (snd (create_property E c db)) (List.map ReqCreate props)).
    eexists (_ :: rest). rewrite Ht, Hs.
    cbn [snd create_property table id_seq]. rewrite <- app_assoc. cbn [app].
    split; [reflexivity|]. split; [lia|].
    cbn [List.map seq]. rewrite Hid, Hf. split; [|reflexivity].
    cbn [snd create_property id_seq Property_id].
    rewrite Z.add_0_r. f_equal.
    rewrite <- seq_shift, List.map_map.
    apply List.map_ext. intros i. lia.
Qed.

(** X9: after a run of create requests [list_properties] returns, in some
    order, the old rows and one new row per request; the new rows carry
    the fields of the requests and consecutive ids starting at the
    sequence, handed out in request order. *)
Theorem creates_add_one_row_each
    (E : externals) (props : list PropertyCreate) (db : database) :
  let db' := serve E db (List.map ReqCreate props) in
  exists rows new_rows,
    list_properties db' = (Ok rows, db') /\
    Permutation rows (table db ++ new_rows) /\
    List.map Property_id new_rows
      = List.map (fun i => id_seq db + Z.of_nat i) (seq 0 (length props)) /\
    List.map (fun p => (Property_name p, Property_address p,
                        Property_latitude p, Property_longitude p)) new_rows
      = List.map (fun c => (PropertyCreate_name c, PropertyCreate_address c,
                            PropertyCreate_latitude c,
                            PropertyCreate_longitude c)) props /\
    id_seq db' = id_seq db + Z.of_nat (length props).
Proof.
  cbn zeta. destruct (serve_creates E props db) as (new_rows & Ht & Hs & Hid & Hf).
  exists (table (serve E db (List.map ReqCreate props))), new_rows.
  split; [reflexivity|]. rewrite Ht. auto.
Qed.

(** ** The geocoding step, further *)

Lemma nearby_world (E : externals) location db w :
  snd (nearby E location db w) = snd (geocode_location E location w).
Proof.
  unfold nearby, bind, ret.
  by destruct (geocode_location E location w) as [[[lat lon]|e] w'].
Qed.

(** On a hit nothing happens to the world. *)
Lemma geocode_location_hit_world (E : externals) query w :
  cache_hit E query w = true -> snd (geocode_location E query w) = w.
Proof.
  unfold cache_hit. destruct (cached E query w) as [s|] eqn:Hc; [|done].
  intros Hs. rewrite (geocode_location_hit E _ _ s); auto.
  intros ->. discriminate.
Qed.

(** A miss touches the key of the query and no other. *)
Lemma geocode_fetch_other_keys (E : externals) key query w k :
  k <> key ->
  redis (snd (geocode_fetch E key query w)) !! k = redis w !! k.
Proof.
  intros Hne. unfold geocode_fetch. unfold_io.
  repeat (split_match; simplify_eq/=; auto).
  all: by rewrite lookup_insert_ne.
Qed.

(** X10: one call of [nearby] never moves the clock and sends the provider
    nothing on a cache hit and exactly one request, the location text as
    typed, on a miss. *)
Theorem nearby_contacts_provider_at_most_once
    (E : externals) (location : string) (db : database) (w : world) :
  let w' := snd (nearby E location db w) in
  clock w' = clock w /\
  http_log w' =
    if cache_hit E location w then http_log w
    else http_log w ++ [location].
Proof.
  cbn zeta. rewrite nearby_world.
  destruct (geocode_location E location w) as [r w'] eqn:Hg.
  destruct (geocode_location_log E _ _ _ _ Hg) as [Hc Hl]. cbn.
  split; [done|]. by destruct (cache_hit E location w).
Qed.

(** X11: whatever the outcome, a call of [nearby] leaves every cache key
    other than ['geocode:' + lower(location)] as it was. *)
Theorem nearby_keeps_other_keys
    (E : externals) (location : string) (db : database) (w : world)
    (k : string) :
  k <> cache_key E location ->
  redis (snd (nearby E location db w)) !! k = redis w !! k.
Proof.
  intros Hne. rewrite nearby_world.
  destruct (cache_hit E location w) eqn:Hh.
  - by rewrite geocode_location_hit_world.
  - rewrite geocode_location_miss by done.
    by apply geocode_fetch_other_keys.
Qed.

(** X12: a cache hit changes nothing: the entry, its expiry included, and
    the rest of the cache are as before, and the provider is not
    contacted. *)
Theorem hit_leaves_world_unchanged
    (E : externals) (location : string) (db : database) (w : world) :
  cache_hit E location w = true ->
  snd (nearby E location db w) = w.
Proof.
  intros Hh. rewrite nearby_world. by apply geocode_location_hit_world.
Qed.

(** X13: the entry a resolving miss writes has a time to live of 86400
    seconds counted from the moment [redis.set] runs, after the provider
    has answered: it is served up to and including that moment plus 86400
    seconds, and a call with the same query after it is a miss again and
    sends the provider a second request. *)
Theorem entry_expires_after_24_hours
    (E : externals) (query : string) (w w1 : world) (t2 : Z)
    (lat lon : value) :
  cache_hit E query w = false ->
  geocode_location E query w = (Ok (lat, lon), w1) ->
  json_dumps E (VList [lat; lon]) <> "" ->
  let written := clock w + Z.of_N (http_elapsed E (clock w) query) in
  (t2 <= written + 86400 -> cache_hit E query (at_time t2 w1) = true) /\
  (written + 86400 < t2 ->
   cache_hit E query (at_time t2 w1) = false /\
   http_log (snd (geocode_location E query (at_time t2 w1)))
     = http_log w ++ [query; query]).
Proof.
  intros Hmiss H1 Hne written.
  destruct (geocode_location_log E _ _ _ _ H1) as [_ Hl1].
  rewrite Hmiss in Hl1.
  rewrite geocode_location_miss in H1 by done.
  apply geocode_fetch_ok in H1. fold written in H1.
  assert (Hhit : cache_hit E query (at_time t2 w1) = (t2 <=? written + 86400)).
  { unfold cache_hit, cached. cbn [redis clock at_time]. rewrite H1. cbn.
    destruct (t2 <=? written + 86400); [|done].
    by destruct (String.eqb_spec (json_dumps E (VList [lat; lon])) ""). }
  rewrite Hhit. split.
  - intros Ht. by apply Z.leb_le.
  - intros Ht.
    assert (Hm : (t2 <=? written + 86400) = false) by by apply Z.leb_gt.
    split; [exact Hm|]. rewrite <- Hhit in Hm.
    destruct (geocode_location E query (at_time t2 w1)) as [r2 w2] eqn:H2.
    destruct (geocode_location_log E _ _ _ _ H2) as [_ Hl2].
    rewrite Hm in Hl2. cbn in *. by rewrite Hl2, Hl1, <- app_assoc.
Qed.

(** X14: on a miss, a reply that is empty, falsy or not a list makes the
    step raise the 400 "Location not found" after one request to the
    provider, with the cache as it was. *)
Theorem unusable_reply_is_location_not_found
    (E : externals) (query : string) (w : world) (results : value) :
  cache_hit E query w = false ->
  http_get E (clock w) query = Response (Some results) ->
  truthy results = false \/ is_list results = false ->
  geocode_location E query w =
  (Raise (HTTPException 400 "Location not found"),
   {| redis := redis w; clock := clock w;
      http_log := http_log w ++ [query] |}).
Proof.
  intros Hmiss Hget Hbad. rewrite geocode_location_miss by done.
  unfold geocode_fetch. unfold_io. rewrite Hget.
  destruct Hbad as [-> | ->]; cbn; [done|].
  by rewrite orb_true_r.
Qed.

(** X15: on a miss, a transport failure and a body that is not JSON are
    raised as such, not as the 400, and nothing is cached. *)
Theorem provider_failure_propagates
    (E : externals) (query : string) (w : world) :
  cache_hit E query w = false ->
  let w' := {| redis := redis w; clock := clock w;
               http_log := http_log w ++ [query] |} in
  (http_get E (clock w) query = TransportFailure ->
   geocode_location E query w = (Raise TransportError, w')) /\
  (http_get E (clock w) query = Response None ->
   geocode_location E query w = (Raise JSONDecodeError, w')).
Proof.
  intros Hmiss w'. rewrite geocode_location_miss by done.
  unfold geocode_fetch. unfold_io.
  split; intros ->; reflexivity.
Qed.

(** X16: whatever [geocode_location] raises, the cache after the call is
    the cache before it: the write is the last step before the return. *)
Theorem geocode_failure_keeps_cache
    (E : externals) (query : string) (w w' : world) (e : exn) :
  geocode_location E query w = (Raise e, w') ->
  redis w' = redis w /\ clock w' = clock w.
Proof.
  intros H. split.
  - eauto using geocode_location_raise_keeps_cache.
  - by destruct (geocode_location_log E _ _ _ _ H).
Qed.

(** An entry that is not served now is not served later either. *)
Lemma cache_miss_stays (E : externals) query w w1 t2 :
  cache_hit E query w = false ->
  redis w1 = redis w ->
  clock w <= t2 ->
  cache_hit E query (at_time t2 w1) = false.
Proof.
  unfold cache_hit, cached. cbn [redis clock at_time]. intros Hm -> Ht.
  destruct (redis w !! cache_key E query) as [[v [t|]]|]; cbn in *; [| |done].
  - destruct (Z.leb_spec (clock w) t), (Z.leb_spec t2 t); auto; lia.
  - exact Hm.
Qed.

(** X17: a live, non-empty cache entry that is not JSON, or is a JSON list
    of a length other than two, makes the step raise without asking the
    provider and without removing the entry, so the next call fails the
    same way. *)
Theorem corrupt_entry_is_not_refetched
    (E : externals) (query : string) (w : world) (s : string) :
  cached E query w = Some s ->
  s <> "" ->
  (json_loads E s = None ->
   geocode_location E query w = (Raise JSONDecodeError, w)) /\
  (forall l, json_loads E s = Some (VList l) -> length l <> 2%nat ->
   geocode_location E query w = (Raise ValueError, w)).
Proof.
  intros Hc Hs. rewrite (geocode_location_hit E _ _ s Hc Hs).
  split.
  - by intros ->.
  - intros l -> Hl. f_equal.
    destruct l as [|a [|b [|c l]]]; cbn in *; done.
Qed.


(** X25: failures are not remembered: after a miss that raised, a later
    call with the same query misses again and sends the provider a second
    request. *)
Theorem failed_miss_is_retried
    (E : externals) (query : string) (w w1 : world) (e : exn) (t2 : Z) :
  cache_hit E query w = false ->
  geocode_location E query w = (Raise e, w1) ->
  clock w <= t2 ->
  cache_hit E query (at_time t2 w1) = false /\
  http_log (snd (geocode_location E query (at_time t2 w1)))
    = http_log w ++ [query; query].
Proof.
  intros Hmiss H1 Ht.
  destruct (geocode_location_log E _ _ _ _ H1) as [_ Hl1].
  rewrite Hmiss in Hl1.
  assert (Hm : cache_hit E query (at_time t2 w1) = false).
  { eapply cache_miss_stays; eauto.
    eauto using geocode_location_raise_keeps_cache. }
  split; [exact Hm|].
  destruct (geocode_location E query (at_time t2 w1)) as [r2 w2] eqn:H2.
  destruct (geocode_location_log E _ _ _ _ H2) as [_ Hl2].
  rewrite Hm in Hl2. cbn in *. by rewrite Hl2, Hl1, <- app_assoc.
Qed.

(** ** The radius query, further *)

Lemma filter_ids_NoDup (f : Property -> bool) rows :
  NoDup (List.map Property_id rows) ->
  NoDup (List.map Property_id (List.filter f rows)).
Proof.
  induction rows as [|p rest IH]; cbn; [done|].
  rewrite NoDup_cons. intros [Hp Hrest].
  destruct (f p); cbn; [|auto].
  apply NoDup_cons. split; [|auto].
  intros Hin. apply Hp.
  apply list_elem_of_In, in_map_iff in Hin as (q & Hq & Hin).
  apply filter_In in Hin as [Hin _].
  apply list_elem_of_In, in_map_iff. eauto.
Qed.

(** X18: a larger radius never loses an entry: what the query returns for
    a radius it returns for every larger one. *)
Theorem larger_radius_keeps_entries
    (E : externals) (db : database) (lat lon : value) (r1 r2 : Q)
    (it : nearby_item) :
  (r1 <= r2)%Q ->
  In it (get_nearby_properties E db lat lon (Some r1)) ->
  In it (get_nearby_properties E db lat lon (Some r2)).
Proof.
  intros Hr. rewrite !get_nearby_properties_In.
  intros (p & Hp & Hd & ->). exists p. repeat split; [done|].
  unfold float_mul in *. eapply to_double_mono; [|exact Hd]. lra.
Qed.

(** X19: the query returns one entry per stored row whose sphere distance
    to the point made of the resolved longitude and latitude is at most
    the product [radius_km * 1000] as the program computes it; hence never
    more entries than rows, and the empty list, not an error, exactly when
    no row is that near. *)
Theorem result_counts_rows_in_radius
    (E : externals) (db : database) (lat lon : value) (radius_km : Q) :
  let within p :=
    float8_le
      (Fin (ST_DistanceSphere E (Property_location p) (ST_MakePoint lon lat)))
      (float_mul radius_km 1000) in
  let result := get_nearby_properties E db lat lon (Some radius_km) in
  length result = length (List.filter within (table db)) /\
  (length result <= length (table db))%nat /\
  (result = [] <-> forall p, In p (table db) -> within p = false).
Proof.
  cbn zeta.
  assert (Hlen : length (get_nearby_properties E db lat lon (Some radius_km))
    = length (List.filter
                (fun p => float8_le (Fin (dist_expr E lat lon p))
                            (float_mul radius_km 1000))
                (table db))).
  { rewrite get_nearby_properties_annotate, length_map. cbn.
    unfold nearby_rows. apply Permutation_length, order_by_Permutation. }
  split; [exact Hlen|]. split.
  - rewrite Hlen. apply List.filter_length_le.
  - split.
    + intros Hnil p Hp.
      destruct (float8_le _ _) eqn:Hd; [|reflexivity].
      assert (Hin : In (annotate E lat lon p)
                      (get_nearby_properties E db lat lon (Some radius_km)))
        by (apply get_nearby_properties_In; eauto).
      rewrite Hnil in Hin. contradiction.
    + intros Hnone.
      destruct (get_nearby_properties E db lat lon (Some radius_km))
        as [|it rest] eqn:Hres; [done|].
      assert (Hin : In it (get_nearby_properties E db lat lon (Some radius_km)))
        by (rewrite Hres; by left).
      apply get_nearby_properties_In in Hin as (p & Hp & Hd & _).
      specialize (Hnone p Hp). unfold dist_expr in Hd. congruence.
Qed.

(** [round(x / 1000, 2)] is within half a hundredth of [x / 1000], up to
    the two roundings to a double. *)
Lemma round2_near (x : Q) :
  (Qabs (round2 (round_to_double x) - x)
   <= (1 # 200) + (Qabs x + 1) * 2 ^ (-51))%Q.
Proof.
  unfold round2.
  set (km := round_to_double x).
  pose proof (round_to_double_error x) as Hkm. fold km in Hkm.
  pose proof (round_half_even_error (km * 100)) as Hn.
  set (n := inject_Z (round_half_even (km * 100))) in *.
  pose proof (round_to_double_error (n / 100)) as Hdk.
  set (dk := round_to_double (n / 100)) in *.
  assert (E51 : (2 ^ (-51) == 4 * 2 ^ (-53))%Q) by reflexivity.
  assert (H75 : (2 ^ (-1075) <= 2 ^ (-53))%Q) by (apply two_to_le; lia).
  assert (H53 : (2 ^ (-53) <= 1 # 1000)%Q).
  { apply Qle_bool_iff. vm_compute. reflexivity. }
  pose proof (two_to_pos (-1075)) as P75. pose proof (two_to_pos (-53)) as P53.
  set (c53 := (2 ^ (-53))%Q) in *. set (c75 := (2 ^ (-1075))%Q) in *.
  set (c51 := (2 ^ (-51))%Q) in *.
  assert (En : (n / 100 == n * (1 # 100))%Q) by (unfold Qdiv; reflexivity).
  rewrite En in *. set (m := (n * (1 # 100))%Q) in *.
  assert (Hm : (Qabs (m - km) <= 1 # 200)%Q).
  { apply Qabs_Qle_condition in Hn. apply Qabs_Qle_condition.
    unfold m. split; lra. }
  clearbody km n dk c53 c75 c51. clear Hn En.
  pose proof (Qabs_nonneg x) as Ax. pose proof (Qabs_nonneg m) as Am.
  assert (Bm : (Qabs m <= Qabs x + Qabs x * c53 + c75 + (1 # 200))%Q).
  { apply Qabs_Qle_condition in Hkm, Hm.
    destruct (Qlt_le_dec x 0); [rewrite (Qabs_neg x) in * by lra
                               |rewrite (Qabs_pos x) in * by lra];
    (destruct (Qlt_le_dec m 0); [rewrite (Qabs_neg m) in * by lra
                                |rewrite (Qabs_pos m) in * by lra]); lra. }
  apply Qabs_Qle_condition in Hkm, Hm, Hdk.
  set (a := Qabs x) in *. set (b := Qabs m) in *. clearbody a b.
  apply Qabs_Qle_condition. split; nra.
Qed.

(** X20: every entry of the result belongs to a stored row, and its
    [distance_km] differs from that row's sphere distance in kilometers by
    at most 0.005 plus the error of rounding to a double, a fraction
    2 ^ -51 of the distance plus one. *)
Theorem distance_km_is_near_the_distance
    (E : externals) (db : database) (lat lon : value)
    (radius_km : option Q) (it : nearby_item) :
  In it (get_nearby_properties E db lat lon radius_km) ->
  exists p,
    In p (table db) /\
    item_id it = Property_id p /\
    let km :=
      (ST_DistanceSphere E (Property_location p) (ST_MakePoint lon lat)
       / 1000)%Q in
    (Qabs (item_distance_km it - km)
     <= (1 # 200) + (Qabs km + 1) * 2 ^ (-51))%Q.
Proof.
  rewrite get_nearby_properties_annotate, in_map_iff.
  intros (p & <- & Hp). apply nearby_rows_In in Hp as [Hp _].
  exists p. repeat split; [done|]. cbn. apply round2_near.
Qed.

(** X21: in a table with a primary key no property is listed twice: the
    ids of the result are pairwise different. *)
Theorem result_ids_are_distinct
    (E : externals) (db : database) (lat lon : value)
    (radius_km : option Q) :
  NoDup (List.map Property_id (table db)) ->
  NoDup (List.map item_id (get_nearby_properties E db lat lon radius_km)).
Proof.
  intros Hnd. rewrite get_nearby_properties_annotate, List.map_map. cbn.
  unfold nearby_rows.
  apply NoDup_ListNoDup. eapply Permutation_NoDup.
  - symmetry. apply Permutation_map, order_by_Permutation.
  - by apply NoDup_ListNoDup, filter_ids_NoDup.
Qed.

(** X22: a property just created is listed by the next radius query if and
    only if the sphere distance from the point [POINT(lon lat)] built from
    its own longitude and latitude to the point of the query is at most
    the product [radius_km * 1000] as the program computes it. *)
Theorem created_property_is_found
    (E : externals) (prop : PropertyCreate) (db : database)
    (lat lon : value) (radius_km : Q) :
  keyed db ->
  let location :=
    WKTElement ("POINT(" ++ float_str E (PropertyCreate_longitude prop)
                ++ " " ++ float_str E (PropertyCreate_latitude prop) ++ ")")%string
               4326 in
  let db' := snd (create_property E prop db) in
  (exists it, In it (get_nearby_properties E db' lat lon (Some radius_km)) /\
              item_id it = id_seq db)
  <-> float8_le (Fin (ST_DistanceSphere E location (ST_MakePoint lon lat)))
        (float_mul radius_km 1000) = true.
Proof.
  intros Hk location db'.
  set (p := {| Property_id := id_seq db;
               Property_name := PropertyCreate_name prop;
               Property_address := PropertyCreate_address prop;
               Property_latitude := PropertyCreate_latitude prop;
               Property_longitude := PropertyCreate_longitude prop;
               Property_location := location |}).
  assert (Hk' : keyed db') by apply (handle_keyed E db (ReqCreate prop) Hk).
  assert (Hp : In p (table db')).
  { subst db'. cbn. apply in_app_iff. right. left. reflexivity. }
  split.
  - intros (it & Hit & Hid).
    apply get_nearby_properties_In in Hit as (q & Hq & Hd & ->).
    cbn in Hid.
    rewrite (primary_key_inj (table db') q p (proj1 Hk') Hq Hp Hid) in Hd.
    exact Hd.
  - intros Hd. exists (annotate E lat lon p). split; [|reflexivity].
    apply get_nearby_properties_In. eauto.
Qed.

(** X23: in a table with a primary key, a deleted property is listed by no
    later radius query. *)
Theorem deleted_property_is_not_found
    (E : externals) (property_id : Z) (db : database)
    (lat lon : value) (radius_km : option Q) (it : nearby_item) :
  NoDup (List.map Property_id (table db)) ->
  is_Some (query_first property_id db) ->
  In it (get_nearby_properties E (snd (delete_property property_id db))
           lat lon radius_km) ->
  item_id it <> property_id.
Proof.
  intros Hnd [old Hold]. unfold delete_property. rewrite Hold. cbn [snd].
  rewrite get_nearby_properties_annotate, in_map_iff.
  intros (p & <- & Hp) Hid. apply nearby_rows_In in Hp as [Hp _].
  cbn in *.
  pose proof (find_id_delete_row_same property_id _ Hnd) as Hnone.
  eapply find_none in Hnone; [|exact Hp]. cbn in Hnone. lia.
Qed.

(** ** The database URL *)

(** X24: after normalisation the driver is never "postgres"; a URL with
    that driver gets "postgresql+psycopg2" and any other URL is returned
    as it is; user, password, host, port, database and query are kept; and
    normalising twice is normalising once. *)
Theorem normalize_url_spec (url : URL) :
  drivername (normalize_url url) <> "postgres" /\
  (normalize_url url = url \/
   drivername url = "postgres" /\
   drivername (normalize_url url) = "postgresql+psycopg2") /\
  (username (normalize_url url), password (normalize_url url),
   host (normalize_url url), port (normalize_url url),
   database_name (normalize_url url), query_args (normalize_url url))
  = (username url, password url, host url, port url,
     database_name url, query_args url) /\
  normalize_url (normalize_url url) = normalize_url url.
Proof.
  unfold normalize_url.
  destruct (String.eqb_spec (drivername url) "postgres") as [Heq|Hne]; cbn.
  - repeat split; [discriminate | by right].
  - destruct (String.eqb_spec (drivername url) "postgres"); [done|].
    repeat split; [done | by left].
Qed.

(** ** The further statements at concrete inputs *)

Ltac keyed_db5 :=
  split; [apply (bool_decide_unpack _); vm_compute; reflexivity
         | vm_compute; repeat constructor].

Lemma create_then_get_witness :
  exists p db',
    create_property Demo.E Demo.hosur_prop Demo.db5 = (Ok p, db') /\
    Property_id p = id_seq Demo.db5 /\
    get_property (Property_id p) db' = (Ok p, db').
Proof. apply (create_then_get Demo.E Demo.hosur_prop Demo.db5). keyed_db5. Defined.

Lemma create_keeps_other_rows_witness :
  fst (get_property 3 (snd (create_property Demo.E Demo.hosur_prop Demo.db5)))
  = fst (get_property 3 Demo.db5).
Proof.
  apply (create_keeps_other_rows Demo.E Demo.hosur_prop Demo.db5 3).
  vm_compute. discriminate.
Defined.

Lemma update_then_get_witness :
  exists p db',
    update_property Demo.E 3 Demo.nan_prop Demo.db5 = (Ok p, db') /\
    get_property 3 db' = (Ok p, db') /\
    Property_id p = 3 /\
    Property_name p = PropertyCreate_name Demo.nan_prop /\
    Property_address p = PropertyCreate_address Demo.nan_prop /\
    Property_latitude p = PropertyCreate_latitude Demo.nan_prop /\
    Property_longitude p = PropertyCreate_longitude Demo.nan_prop.
Proof.
  apply (update_then_get Demo.E 3 Demo.nan_prop Demo.db5 Demo.edge).
  vm_compute. reflexivity.
Defined.

Lemma update_keeps_other_rows_witness :
  let db' := snd (update_property Demo.E 3 Demo.nan_prop Demo.db5) in
  fst (get_property 4 db') = fst (get_property 4 Demo.db5) /\
  Permutation (List.map Property_id (table db'))
              (List.map Property_id (table Demo.db5)) /\
  id_seq db' = id_seq Demo.db5.
Proof.
  apply (update_keeps_other_rows Demo.E 3 4 Demo.nan_prop Demo.db5). lia.
Defined.

Lemma delete_then_get_witness :
  exists db',
    delete_property 3 Demo.db5 = (Ok tt, db') /\
    S (length (table db')) = length (table Demo.db5) /\
    get_property 3 db'
      = (Raise (HTTPException 404 "Property not found"), db').
Proof.
  apply (delete_then_get 3 Demo.db5 Demo.edge).
  - apply (bool_decide_unpack _). vm_compute. reflexivity.
  - vm_compute. reflexivity.
Defined.

Lemma delete_keeps_other_rows_witness :
  let db' := snd (delete_property 3 Demo.db5) in
  fst (get_property 4 db') = fst (get_property 4 Demo.db5) /\
  (forall p, In p (table db') -> In p (table Demo.db5)).
Proof. apply (delete_keeps_other_rows 3 4 Demo.db5). lia. Defined.

Lemma primary_key_invariant_witness :
  keyed (serve Demo.E Demo.db5
           [ReqDelete 2; ReqCreate Demo.hosur_prop; ReqUpdate 6 Demo.nan_prop]).
Proof.
  apply (primary_key_invariant Demo.E
           [ReqDelete 2; ReqCreate Demo.hosur_prop; ReqUpdate 6 Demo.nan_prop]
           Demo.db5).
  keyed_db5.
Defined.

Lemma nearby_keeps_other_keys_witness :
  redis (snd (nearby Demo.E "Hosur" Demo.db5 Demo.w_corrupt)) !! "session:42"
  = redis Demo.w_corrupt !! "session:42".
Proof.
  apply (nearby_keeps_other_keys Demo.E "Hosur" Demo.db5 Demo.w_corrupt
           "session:42").
  vm_compute. discriminate.
Defined.

Lemma hit_leaves_world_unchanged_witness :
  let w1 := at_time 3600 (snd (nearby Demo.E "Hosur" Demo.db5 Demo.w0)) in
  snd (nearby Demo.E "HOSUR" Demo.db5 w1) = w1.
Proof.
  apply (hit_leaves_world_unchanged Demo.E "HOSUR" Demo.db5
           (at_time 3600 (snd (nearby Demo.E "Hosur" Demo.db5 Demo.w0)))).
  vm_compute. reflexivity.
Defined.

Lemma entry_expires_after_24_hours_witness :
  let w1 := snd (geocode_location Demo.E "Hosur" Demo.w0) in
  let written :=
    clock Demo.w0 + Z.of_N (http_elapsed Demo.E (clock Demo.w0) "Hosur") in
  (86401 <= written + 86400 ->
   cache_hit Demo.E "Hosur" (at_time 86401 w1) = true) /\
  (written + 86400 < 86401 ->
   cache_hit Demo.E "Hosur" (at_time 86401 w1) = false /\
   http_log (snd (geocode_location Demo.E "Hosur" (at_time 86401 w1)))
     = http_log Demo.w0 ++ ["Hosur"; "Hosur"]).
Proof.
  apply (entry_expires_after_24_hours Demo.E "Hosur" Demo.w0
           (snd (geocode_location Demo.E "Hosur" Demo.w0)) 86401
           Demo.lat Demo.lon).
  - vm_compute. reflexivity.
  - vm_compute. reflexivity.
  - vm_compute. discriminate.
Defined.

Lemma failed_miss_is_retried_witness :
  let w1 := snd (geocode_location Demo.E "Atlantis" Demo.w0) in
  cache_hit Demo.E "Atlantis" (at_time 60 w1) = false /\
  http_log (snd (geocode_location Demo.E "Atlantis" (at_time 60 w1)))
    = http_log Demo.w0 ++ ["Atlantis"; "Atlantis"].
Proof.
  apply (failed_miss_is_retried Demo.E "Atlantis" Demo.w0
           (snd (geocode_location Demo.E "Atlantis" Demo.w0))
           (KeyError "lat") 60).
  - vm_compute. reflexivity.
  - vm_compute. reflexivity.
  - cbn. lia.
Defined.

Lemma unusable_reply_is_location_not_found_witness :
  geocode_location Demo.E "Nowhere" Demo.w0 =
  (Raise (HTTPException 400 "Location not found"),
   {| redis := redis Demo.w0; clock := clock Demo.w0;
      http_log := http_log Demo.w0 ++ ["Nowhere"] |}).
Proof.
  apply (unusable_reply_is_location_not_found Demo.E "Nowhere" Demo.w0
           (VList [])).
  - vm_compute. reflexivity.
  - reflexivity.
  - left. reflexivity.
Defined.

Lemma provider_failure_propagates_witness :
  geocode_location Demo.offline "Hosur" Demo.w0 =
  (Raise TransportError,
   {| redis := redis Demo.w0; clock := clock Demo.w0;
      http_log := http_log Demo.w0 ++ ["Hosur"] |}).
Proof.
  apply (provider_failure_propagates Demo.offline "Hosur" Demo.w0).
  - vm_compute. reflexivity.
  - reflexivity.
Defined.

Lemma geocode_failure_keeps_cache_witness :
  redis (snd (geocode_location Demo.E "Atlantis" Demo.w_corrupt))
    = redis Demo.w_corrupt /\
  clock (snd (geocode_location Demo.E "Atlantis" Demo.w_corrupt))
    = clock Demo.w_corrupt.
Proof.
  apply (geocode_failure_keeps_cache Demo.E "Atlantis" Demo.w_corrupt
           _ (KeyError "lat")).
  vm_compute. reflexivity.
Defined.

Lemma corrupt_entry_is_not_refetched_witness :
  geocode_location Demo.E "Hosur" Demo.w_corrupt
  = (Raise JSONDecodeError, Demo.w_corrupt).
Proof.
  apply (corrupt_entry_is_not_refetched Demo.E "Hosur" Demo.w_corrupt "<html>").
  - vm_compute. reflexivity.
  - discriminate.
  - reflexivity.
Defined.

Lemma larger_radius_keeps_entries_witness :
  In (annotate Demo.E Demo.lat Demo.lon Demo.edge)
     (get_nearby_properties Demo.E Demo.db5 Demo.lat Demo.lon (Some (300 # 1))).
Proof.
  apply (larger_radius_keeps_entries Demo.E Demo.db5 Demo.lat Demo.lon
           (50 # 1) (300 # 1)).
  - vm_compute. discriminate.
  - vm_compute. auto 6.
Defined.

Lemma distance_km_is_near_the_distance_witness :
  exists p,
    In p (table Demo.db5) /\
    item_id (annotate Demo.E Demo.lat Demo.lon Demo.edge) = Property_id p /\
    let km :=
      (ST_DistanceSphere Demo.E (Property_location p)
         (ST_MakePoint Demo.lon Demo.lat) / 1000)%Q in
    (Qabs (item_distance_km (annotate Demo.E Demo.lat Demo.lon Demo.edge) - km)
     <= (1 # 200) + (Qabs km + 1) * 2 ^ (-51))%Q.
Proof.
  apply (distance_km_is_near_the_distance Demo.E Demo.db5
           Demo.lat Demo.lon None).
  vm_compute. auto 6.
Defined.

Lemma result_ids_are_distinct_witness :
  NoDup (List.map item_id
           (get_nearby_properties Demo.E Demo.db5 Demo.lat Demo.lon None)).
Proof.
  apply (result_ids_are_distinct Demo.E Demo.db5 Demo.lat Demo.lon None).
  apply (bool_decide_unpack _). vm_compute. reflexivity.
Defined.

Lemma created_property_is_found_witness :
  let location :=
    WKTElement
      ("POINT(" ++ float_str Demo.E (PropertyCreate_longitude Demo.hosur_prop)
       ++ " " ++ float_str Demo.E (PropertyCreate_latitude Demo.hosur_prop)
       ++ ")")%string 4326 in
  let db' := snd (create_property Demo.E Demo.hosur_prop Demo.db5) in
  (exists it,
     In it (get_nearby_properties Demo.E db' Demo.lat Demo.lon
              (Some (50 # 1))) /\
     item_id it = id_seq Demo.db5)
  <-> float8_le
        (Fin (ST_DistanceSphere Demo.E location
                (ST_MakePoint Demo.lon Demo.lat)))
        (float_mul (50 # 1) 1000) = true.
Proof.
  apply (created_property_is_found Demo.E Demo.hosur_prop Demo.db5
           Demo.lat Demo.lon (50 # 1)).
  keyed_db5.
Defined.

Lemma deleted_property_is_not_found_witness :
  item_id (annotate Demo.E Demo.lat Demo.lon
             {| Property_id := 5; Property_name := "here";
                Property_address := "";
                Property_latitude := Fin (25 # 2);
                Property_longitude := Fin (155 # 2);
                Property_location := WKTElement "POINT(77.5 12.5)" 4326 |})
  <> 3.
Proof.
  apply (deleted_property_is_not_found Demo.E 3 Demo.db5 Demo.lat Demo.lon
           None).
  - apply (bool_decide_unpack _). vm_compute. reflexivity.
  - vm_compute. eauto.
  - vm_compute. auto.
Defined.
